(** * ProductPal: conversation state and agent-response normalisation

    A shallow embedding of the logic of [src/app/page.tsx]:
    - [parseAgentResponse] (the response normaliser), over a model of the
      JavaScript values a gateway reply can hold;
    - the page's state ([conversations], [activeConversationId], [isLoading],
      [inputValue]) with [createNewConversation], [sendMessage] and
      [retryLastMessage] as state transformers;
    - the helpers and components around them: [relativeTime],
      [renderMarkdown] and [formatInline], what [MessageBubble],
      [ProductCard] and [ComparisonTable] select for display, and the
      effects that load stored or sample conversations.

    Strings are sequences of UTF-16 code units, numbers are IEEE-754 doubles,
    objects are association lists read from the front.  [JSON.parse], the
    clock and [generateId] are not part of the page: the parser is a
    parameter of the development, identifiers and timestamps are supplied to
    every operation by its caller. *)

From Stdlib Require Import List String Ascii NArith Bool Arith Lia.
From Stdlib Require Import Floats.PrimFloat.
Import ListNotations.

Set Warnings "-register-all".

(** ** JavaScript values *)

Module Js.

(** A JavaScript string: its UTF-16 code units. *)
Definition jsstring := list N.

(** The code units of an ASCII literal. *)
Definition js (s : string) : jsstring :=
  List.map N_of_ascii (list_ascii_of_string s).

Fixpoint str_eqb (a b : jsstring) : bool :=
  match a, b with
  | [], [] => true
  | x :: a', y :: b' => N.eqb x y && str_eqb a' b'
  | _, _ => false
  end.

Inductive value : Type :=
| VUndefined
| VNull
| VBool (b : bool)
| VNum (x : float)
| VStr (s : jsstring)
| VArr (items : list value)
| VObj (fields : list (jsstring * value)).

(** ToBoolean. *)
Definition truthy (v : value) : bool :=
  match v with
  | VUndefined | VNull => false
  | VBool b => b
  | VNum x => negb (PrimFloat.eqb x PrimFloat.zero) && PrimFloat.eqb x x
  | VStr s => negb (Nat.eqb (List.length s) 0)
  | VArr _ | VObj _ => true
  end.

(** [typeof v === 'string'] *)
Definition is_string (v : value) : bool :=
  match v with VStr _ => true | _ => false end.

(** [typeof v === 'object'] (which holds of [null] and of arrays) *)
Definition typeof_object (v : value) : bool :=
  match v with VNull | VArr _ | VObj _ => true | _ => false end.

(** [Array.isArray(v)] *)
Definition isArray (v : value) : bool :=
  match v with VArr _ => true | _ => false end.

Definition nullish (v : value) : bool :=
  match v with VUndefined | VNull => true | _ => false end.

Fixpoint assoc (fields : list (jsstring * value)) (k : jsstring) : value :=
  match fields with
  | [] => VUndefined
  | (k', v) :: rest => if str_eqb k' k then v else assoc rest k
  end.

(** The value read by [o.k] on a value that is neither [null] nor
    [undefined], for the keys the page reads ([success], [response],
    [result], [message], [name], ...): an own field of an object, and
    [undefined] on primitives and arrays, whose prototypes define none of
    these keys. *)
Definition lookup (o : value) (k : jsstring) : value :=
  match o with
  | VObj fields => assoc fields k
  | _ => VUndefined
  end.

(** [o?.k] *)
Definition opt_prop (o : value) (k : jsstring) : value :=
  if nullish o then VUndefined else lookup o k.

(** [a || b] *)
Definition or_else (a b : value) : value := if truthy a then a else b.

End Js.
Import Js.

(** ** Statements that can throw

    The body of [parseAgentResponse] assigns three locals and sits inside
    [try]/[catch] blocks whose handlers see the locals as they were when the
    exception was raised.  A computation therefore maps the locals to the
    locals it leaves and either a value or [None], an exception in flight. *)

Record Locals : Type := mkLocals {
  l_text : value;
  l_products : list value;
  l_comparison : option value        (* [None] is [null] *)
}.

Definition M (A : Type) : Type := Locals -> Locals * option A.

Definition ret {A} (a : A) : M A := fun l => (l, Some a).
Definition throw {A} : M A := fun l => (l, None).
Definition bind {A B} (m : M A) (f : A -> M B) : M B :=
  fun l => match m l with
           | (l', Some a) => f a l'
           | (l', None) => (l', None)
           end.
Definition try_catch {A} (m handler : M A) : M A :=
  fun l => match m l with
           | (l', None) => handler l'
           | r => r
           end.

Notation "x <- m ;; k" := (bind m (fun x => k))
  (at level 61, m at next level, right associativity).
Notation "m ;;; k" := (bind m (fun _ => k))
  (at level 61, right associativity).

Definition get_text : M value := fun l => (l, Some (l_text l)).
Definition get_products : M (list value) := fun l => (l, Some (l_products l)).
Definition get_comparison : M (option value) :=
  fun l => (l, Some (l_comparison l)).
Definition set_text (v : value) : M unit :=
  fun l => (mkLocals v (l_products l) (l_comparison l), Some tt).
Definition set_products (ps : list value) : M unit :=
  fun l => (mkLocals (l_text l) ps (l_comparison l), Some tt).
Definition set_comparison (c : option value) : M unit :=
  fun l => (mkLocals (l_text l) (l_products l) c, Some tt).

(** [o.k]: a TypeError when [o] is [null] or [undefined]. *)
Definition prop (o : value) (k : jsstring) : M value :=
  if nullish o then throw else ret (lookup o k).

(** [Array.prototype.filter] with a callback that may throw. *)
Fixpoint filterM (f : value -> M bool) (xs : list value) : M (list value) :=
  match xs with
  | [] => ret []
  | x :: rest =>
      b <- f x ;;
      kept <- filterM f rest ;;
      ret (if b then x :: kept else kept)
  end.

(** ** The response normaliser: [parseAgentResponse] *)

(** The property names the page reads. *)
Module Key.
Definition success := js "success".
Definition response := js "response".
Definition error := js "error".
Definition result := js "result".
Definition message := js "message".
Definition raw_response := js "raw_response".
Definition text := js "text".
Definition answer := js "answer".
Definition content := js "content".
Definition products := js "products".
Definition comparison := js "comparison".
Definition attributes := js "attributes".
Definition name := js "name".
End Key.

Definition MSG_CALL_FAILED : jsstring :=
  js "Sorry, I encountered an error. Please try again.".
Definition MSG_UNFORMATTED : jsstring :=
  js "I received your message but couldn't format a response. Please try again.".
Definition MSG_PARSE_ERROR : jsstring :=
  js "Sorry, I encountered an error processing the response. Please try again.".

(** What [parseAgentResponse] returns.  [text] is typed [string] in the
    source, but it is assigned from fields of the reply without a check of
    their type in three places, so it is a value here. *)
Record Parsed : Type := mkParsed {
  text : value;
  products : list value;
  comparison : option value
}.

(** [{ text, products, comparison }] *)
Definition of_locals (l : Locals) : Parsed :=
  mkParsed (l_text l) (l_products l) (l_comparison l).

(** Lines 150-152 *)
Definition init_locals : Locals := mkLocals (VStr []) [] None.

(** [typeof v === 'string' ? v : ''] *)
Definition string_or_empty (v : value) : value :=
  if is_string v then v else VStr [].

(** The callback of both [filter] calls: [(p) => p && typeof p.name === 'string'],
    read as a boolean by [filter]. *)
Definition keep_product (p : value) : M bool :=
  if truthy p then n <- prop p Key.name ;; ret (is_string n) else ret false.

(** The test of line 189-192 on [parsed.comparison]. *)
Definition comparison_ok (c : value) : bool :=
  truthy c && typeof_object c && negb (isArray c)
  && isArray (opt_prop c Key.attributes).

(** The test of line 219 on [innerResult.comparison] (no [!Array.isArray]). *)
Definition inner_comparison_ok (c : value) : bool :=
  truthy c && typeof_object c && isArray (opt_prop c Key.attributes).

(** [if (!text) text = typeof parsed.k === 'string' ? parsed.k : ''] *)
Definition probe_text (parsed : value) (k : jsstring) : M unit :=
  t <- get_text ;;
  if negb (truthy t)
  then v <- prop parsed k ;; set_text (string_or_empty v)
  else ret tt.

(** Lines 178-194: text, products and comparison of the candidate object. *)
Definition extract_structured (parsed : value) : M unit :=
  r <- prop parsed Key.response ;;
  set_text (string_or_empty r) ;;;
  probe_text parsed Key.text ;;;
  probe_text parsed Key.message ;;;
  probe_text parsed Key.answer ;;;
  probe_text parsed Key.content ;;;
  ps <- prop parsed Key.products ;;
  (match ps with
   | VArr items => kept <- filterM keep_product items ;; set_products kept
   | _ => set_products []
   end) ;;;
  c <- prop parsed Key.comparison ;;
  set_comparison (if comparison_ok c then Some c else None).

Section Normaliser.

(** [JSON.parse]: [None] when it throws.  It is applied to a string at line
    169 and to whatever [raw_response] holds at line 205. *)
Variable JSON_parse : value -> option value.

Definition json_parse (v : value) : M value :=
  match JSON_parse v with
  | Some x => ret x
  | None => throw
  end.

(** Lines 160-174: the value of [parsed] after the first [if]. *)
Definition parse_result_field (raw : value) : M value :=
  if truthy raw && typeof_object raw && negb (isArray raw) then ret raw
  else if is_string raw
  then try_catch (json_parse raw) (set_text raw ;;; ret VNull)
  else ret VNull.

(** Lines 214-222: [innerResult] is an object. *)
Definition extract_inner (inner : value) : M unit :=
  a <- prop inner Key.response ;;
  t <- (if truthy a then ret a
        else b <- prop inner Key.text ;;
             if truthy b then ret b
             else c <- prop inner Key.message ;;
                  ret (or_else c (VStr []))) ;;
  set_text t ;;;
  ps <- get_products ;;
  (if Nat.eqb (List.length ps) 0
   then ips <- prop inner Key.products ;;
        match ips with
        | VArr items => kept <- filterM keep_product items ;; set_products kept
        | _ => ret tt
        end
   else ret tt) ;;;
  cmp <- get_comparison ;;
  match cmp with
  | None =>
      ic <- prop inner Key.comparison ;;
      if inner_comparison_ok ic then set_comparison (Some ic) else ret tt
  | Some _ => ret tt
  end.

(** Lines 204-229: the [try]/[catch] on [result.raw_response]. *)
Definition raw_response_fallback (result : value) : M unit :=
  try_catch
    (rr <- prop result Key.raw_response ;;
     rawParsed <- json_parse rr ;;
     if is_string rawParsed then set_text rawParsed
     else if truthy (opt_prop rawParsed Key.response)
             && is_string (opt_prop rawParsed Key.response)
     then r <- prop rawParsed Key.response ;; set_text r
     else if truthy (opt_prop (opt_prop rawParsed Key.response) Key.result)
     then r <- prop rawParsed Key.response ;;
          innerResult <- prop r Key.result ;;
          if is_string innerResult then set_text innerResult
          else if typeof_object innerResult then extract_inner innerResult
          else ret tt
     else ret tt)
    (rr <- prop result Key.raw_response ;;
     match rr with
     | VStr s => if Nat.ltb 0 (List.length s) then set_text rr else ret tt
     | _ => ret tt
     end).

(** [return { text: result?.error || '...', products, comparison }] *)
Definition return_failed (result : value) : M (option Parsed) :=
  ps <- get_products ;;
  cmp <- get_comparison ;;
  ret (Some (mkParsed (or_else (opt_prop result Key.error) (VStr MSG_CALL_FAILED))
                      ps cmp)).

(** Lines 159-235, after the guard of line 155. *)
Definition normalise_reply (result : value) : M (option Parsed) :=
  response <- prop result Key.response ;;
  raw <- prop response Key.result ;;
  parsed <- parse_result_field raw ;;
  (if truthy parsed && typeof_object parsed
   then extract_structured parsed else ret tt) ;;;
  t <- get_text ;;
  (if negb (truthy t)
   then m <- prop response Key.message ;; set_text (or_else m (VStr []))
   else ret tt) ;;;
  t <- get_text ;;
  (if negb (truthy t)
   then rr <- prop result Key.raw_response ;;
        if truthy rr then raw_response_fallback result else ret tt
   else ret tt) ;;;
  t <- get_text ;;
  (if negb (truthy t) then set_text (VStr MSG_UNFORMATTED) else ret tt) ;;;
  ret None.

(** The body of the outer [try]: [Some p] is [return p] at line 156, [None]
    is falling out of the block. *)
Definition try_block (result : value) : M (option Parsed) :=
  if negb (truthy result) then return_failed result
  else
    s <- prop result Key.success ;;
    if negb (truthy s) then return_failed result
    else
      r <- prop result Key.response ;;
      if negb (truthy r) then return_failed result
      else normalise_reply result.

Definition parseAgentResponse (result : value) : Parsed :=
  match try_block result init_locals with
  | (_, Some (Some early)) => early
  | (l, Some None) => of_locals l
  | (l, None) =>
      mkParsed (VStr MSG_PARSE_ERROR) (l_products l) (l_comparison l)
  end.

End Normaliser.

(** ** Strings: [trim] and [slice] *)

(** ECMAScript's WhiteSpace and LineTerminator code points, all of them in
    the Basic Multilingual Plane, hence single code units. *)
Definition is_white_space (c : N) : bool :=
  match c with
  | 9 | 10 | 11 | 12 | 13 | 32 | 160 | 5760
  | 8192 | 8193 | 8194 | 8195 | 8196 | 8197 | 8198 | 8199 | 8200 | 8201 | 8202
  | 8232 | 8233 | 8239 | 8287 | 12288 | 65279 => true
  | _ => false
  end%N.

Fixpoint trimStart (s : jsstring) : jsstring :=
  match s with
  | c :: rest => if is_white_space c then trimStart rest else s
  | [] => []
  end.

Definition trimEnd (s : jsstring) : jsstring := rev (trimStart (rev s)).

(** [String.prototype.trim] *)
Definition trim (s : jsstring) : jsstring := trimEnd (trimStart s).

(** [s.slice(0, n)] *)
Definition slice0 (n : nat) (s : jsstring) : jsstring := firstn n s.

(** ** Messages, conversations and the page state *)

(** [role: 'user' | 'assistant'] *)
Inductive Role : Type := User | Assistant.

(** [interface Message].  [content] is typed [string]; it holds the text
    [parseAgentResponse] returned, which can be any value, so it is a value
    here.  An optional field that is absent or [undefined] is [None]. *)
Module Message.
Record t : Type := mk {
  id : jsstring;
  role : Role;
  content : value;
  products : option (list value);
  comparison : option value;
  timestamp : jsstring;
  error : option bool
}.
End Message.

(** [interface Conversation] *)
Module Conversation.
Record t : Type := mk {
  id : jsstring;
  sessionId : jsstring;
  title : jsstring;
  messages : list Message.t;
  createdAt : jsstring;
  updatedAt : jsstring
}.
End Conversation.

(** Calls made on [agentActivityRef.current], in the order they were made. *)
Inductive ObserverCall : Type :=
| ObsReset
| ObsSetProcessing (b : bool).

(** The [useState] cells of the page that the message flow reads or writes,
    and the calls it made on the activity observer. *)
Record AppState : Type := mkState {
  conversations : list Conversation.t;
  activeConversationId : option jsstring;   (* [None] is [null] *)
  isLoading : bool;
  inputValue : jsstring;
  observerCalls : list ObserverCall
}.

Definition initial_state : AppState := mkState [] None false [] [].

(** [c.id === a] for [a : string | null] *)
Definition id_is (c : Conversation.t) (a : option jsstring) : bool :=
  match a with
  | Some x => str_eqb (Conversation.id c) x
  | None => false
  end.

(** [conversations.find((c) => c.id === activeConversationId) ?? null] *)
Definition activeConversation (st : AppState) : option Conversation.t :=
  find (fun c => id_is c (activeConversationId st)) (conversations st).

(** The setters, [setConversations] with an updater as the page calls it. *)
Definition setConversations (f : list Conversation.t -> list Conversation.t)
    (st : AppState) : AppState :=
  mkState (f (conversations st)) (activeConversationId st) (isLoading st)
          (inputValue st) (observerCalls st).

Definition setActiveConversationId (a : option jsstring) (st : AppState)
    : AppState :=
  mkState (conversations st) a (isLoading st) (inputValue st)
          (observerCalls st).

Definition setIsLoading (b : bool) (st : AppState) : AppState :=
  mkState (conversations st) (activeConversationId st) b (inputValue st)
          (observerCalls st).

Definition setInputValue (s : jsstring) (st : AppState) : AppState :=
  mkState (conversations st) (activeConversationId st) (isLoading st) s
          (observerCalls st).

(** [try { agentActivityRef.current.<call> } catch {}] *)
Definition notify (c : ObserverCall) (st : AppState) : AppState :=
  mkState (conversations st) (activeConversationId st) (isLoading st)
          (inputValue st) (observerCalls st ++ [c]).

(** The [prev.map] of lines 705-716, 736-745 and 755-764: the conversations
    whose id is [convId] get [upd], the others are returned as they are. *)
Definition update_conversation (convId : jsstring)
    (upd : Conversation.t -> Conversation.t) (prev : list Conversation.t)
    : list Conversation.t :=
  map (fun c => if negb (str_eqb (Conversation.id c) convId) then c else upd c)
      prev.

(** [{ ...c, messages: [...c.messages, m], updatedAt: now }] *)
Definition append_message (m : Message.t) (now : jsstring)
    (c : Conversation.t) : Conversation.t :=
  Conversation.mk (Conversation.id c) (Conversation.sessionId c)
    (Conversation.title c) (Conversation.messages c ++ [m])
    (Conversation.createdAt c) now.

(** What [createNewConversation] draws from [generateId] and the clock. *)
Record CreateDraws : Type := mkCreateDraws {
  create_id : jsstring;
  create_sessionId : jsstring;
  create_createdAt : jsstring;
  create_updatedAt : jsstring
}.

(** Lines 657-671, without the sidebar. *)
Definition createNewConversation (d : CreateDraws) (st : AppState) : AppState :=
  let newConv :=
    Conversation.mk (create_id d) (create_sessionId d) (js "New Conversation")
      [] (create_createdAt d) (create_updatedAt d) in
  notify ObsReset
    (setInputValue []
       (setActiveConversationId (Some (Conversation.id newConv))
          (setConversations (fun prev => newConv :: prev) st))).

(** The [onClick] of a sidebar entry. *)
Definition selectConversation (convId : jsstring) (st : AppState) : AppState :=
  notify ObsReset (setActiveConversationId (Some convId) st).

(** What the synchronous part of [sendMessage] draws. *)
Record SendDraws : Type := mkSendDraws {
  send_fallbackSessionId : jsstring;   (* [?? generateId()] of line 679 *)
  send_convId : jsstring;
  send_sessionId : jsstring;
  send_createdAt : jsstring;
  send_updatedAt : jsstring;
  send_userMsgId : jsstring;
  send_userTimestamp : jsstring;
  send_userUpdatedAt : jsstring
}.

(** What the continuation of [sendMessage] keeps from before the [await]. *)
Record Pending : Type := mkPending {
  convId : jsstring;
  sessionId : jsstring;
  trimmed : jsstring
}.

(** [!convId] for [convId : string | null] *)
Definition no_conversation (a : option jsstring) : bool :=
  match a with
  | None => true
  | Some x => negb (truthy (VStr x))
  end.

(** Lines 698-703 *)
Definition userMsg (d : SendDraws) (trimmed : jsstring) : Message.t :=
  Message.mk (send_userMsgId d) User (VStr trimmed) None None
    (send_userTimestamp d) None.

(** The updater of lines 707-714 on the conversation it targets. *)
Definition add_user_message (d : SendDraws) (trimmed : jsstring)
    (c : Conversation.t) : Conversation.t :=
  let isFirst := Nat.eqb (List.length (Conversation.messages c)) 0 in
  Conversation.mk (Conversation.id c) (Conversation.sessionId c)
    (if isFirst then slice0 50 trimmed else Conversation.title c)
    (Conversation.messages c ++ [userMsg d trimmed])
    (Conversation.createdAt c) (send_userUpdatedAt d).

(** Lines 674-719: [sendMessage] up to the [await].  [snap] is the state the
    callback closed over ([activeConversationId], [activeConversation] and
    [isLoading] are read from it), [st] the state its updaters apply to.
    The result is the state and, when the gateway was called, what the
    continuation keeps.  On a [text] that is no string, [text.trim()] throws
    and the promise rejects before any update. *)
Definition sendMessage_begin (snap st : AppState) (d : SendDraws)
    (text : value) : AppState * option Pending :=
  match text with
  | VStr s =>
      let trimmed := trim s in
      if negb (truthy (VStr trimmed)) || isLoading snap then (st, None)
      else
        let sessionId0 :=
          match activeConversation snap with
          | Some ac => Conversation.sessionId ac
          | None => send_fallbackSessionId d
          end in
        let '(convId, sessionId, st1) :=
          if no_conversation (activeConversationId snap)
          then
            let newConv :=
              Conversation.mk (send_convId d) (send_sessionId d)
                (slice0 50 trimmed) [] (send_createdAt d) (send_updatedAt d) in
            (Conversation.id newConv, Conversation.sessionId newConv,
             setActiveConversationId (Some (Conversation.id newConv))
               (setConversations (fun prev => newConv :: prev) st))
          else
            (match activeConversationId snap with Some x => x | None => [] end,
             sessionId0, st) in
        (notify (ObsSetProcessing true)
           (setIsLoading true
              (setInputValue []
                 (setConversations
                    (update_conversation convId (add_user_message d trimmed))
                    st1))),
         Some (mkPending convId sessionId trimmed))
  | _ => (st, None)
  end.

(** [sendMessage] called from the render that shows [st]. *)
Definition sendMessage (st : AppState) (d : SendDraws) (text : value)
    : AppState * option Pending :=
  sendMessage_begin st st d text.

(** How the awaited [callAIAgent] ends. *)
Inductive GatewayOutcome : Type :=
| Resolved (result : value)
| Rejected.

(** What the continuation draws. *)
Record SettleDraws : Type := mkSettleDraws {
  settle_msgId : jsstring;
  settle_timestamp : jsstring;
  settle_updatedAt : jsstring
}.

Definition MSG_WENT_WRONG : jsstring :=
  js "Something went wrong. Please try again.".

(** Lines 748-754 *)
Definition errorMsg (d : SettleDraws) : Message.t :=
  Message.mk (settle_msgId d) Assistant (VStr MSG_WENT_WRONG) None None
    (settle_timestamp d) (Some true).

(** Lines 727-734 *)
Definition assistantMsg (d : SettleDraws) (p : Parsed) : Message.t :=
  Message.mk (settle_msgId d) Assistant (text p)
    (if Nat.ltb 0 (List.length (products p)) then Some (products p) else None)
    (comparison p) (settle_timestamp d) None.

(** Whether control reaches the [catch] of line 746: the call rejected, or
    it resolved with [undefined], on which [JSON.stringify(result).substring]
    of line 724 throws. *)
Definition takes_catch (o : GatewayOutcome) : bool :=
  match o with
  | Rejected => true
  | Resolved VUndefined => true
  | Resolved _ => false
  end.

Section Flow.

Variable JSON_parse : value -> option value.

(** The message lines 721-764 append. *)
Definition reply_message (o : GatewayOutcome) (d : SettleDraws) : Message.t :=
  match o with
  | Rejected => errorMsg d
  | Resolved VUndefined => errorMsg d
  | Resolved result => assistantMsg d (parseAgentResponse JSON_parse result)
  end.

(** Lines 721-768: [sendMessage] from the [await] on. *)
Definition sendMessage_settle (p : Pending) (o : GatewayOutcome)
    (d : SettleDraws) (st : AppState) : AppState :=
  notify (ObsSetProcessing false)
    (setIsLoading false
       (setConversations
          (update_conversation (convId p)
             (append_message (reply_message o d) (settle_updatedAt d)))
          st)).

End Flow.

(** [!m.error] *)
Definition not_error (m : Message.t) : bool :=
  match Message.error m with
  | Some b => negb b
  | None => true
  end.

(** [m.role === 'user'] *)
Definition is_user (m : Message.t) : bool :=
  match Message.role m with User => true | Assistant => false end.

(** [{ ...c, messages: c.messages.filter((m) => !m.error) }] *)
Definition drop_errors (c : Conversation.t) : Conversation.t :=
  Conversation.mk (Conversation.id c) (Conversation.sessionId c)
    (Conversation.title c) (filter not_error (Conversation.messages c))
    (Conversation.createdAt c) (Conversation.updatedAt c).

(** Lines 773-789.  [sendMessage] is the callback of the same render, so it
    reads [st] while its updaters run after the one that drops the errors. *)
Definition retryLastMessage (st : AppState) (d : SendDraws)
    : AppState * option Pending :=
  match activeConversation st with
  | None => (st, None)
  | Some ac =>
      let msgs := Conversation.messages ac in
      if Nat.ltb (List.length msgs) 2 then (st, None)
      else
        match find is_user (rev msgs) with
        | None => (st, None)
        | Some lastUserMsg =>
            sendMessage_begin st
              (setConversations
                 (map (fun c => if negb (id_is c (activeConversationId st))
                                then c else drop_errors c))
                 st)
              d (Message.content lastUserMsg)
        end
  end.

(** * Reading the normaliser

    Every property read of [parseAgentResponse] is on a value already known
    not to be [null] or [undefined], and the two calls of [JSON.parse] sit in
    [try] blocks of their own; so each block runs to a set of locals that a
    pure function describes.  The functions are given here, the lemmas that
    the blocks compute them further down. *)

(** [text = v] *)
Definition with_text (v : value) (l : Locals) : Locals :=
  mkLocals v (l_products l) (l_comparison l).

(** The callback of [filter] as a predicate. *)
Definition keep (p : value) : bool :=
  truthy p && is_string (lookup p Key.name).

(** The keys of lines 179-183, in the order they are probed. *)
Definition TEXT_KEYS : list jsstring :=
  [Key.response; Key.text; Key.message; Key.answer; Key.content].

(** The first non-empty string among the fields [keys] of [o], in the order
    of [keys]. *)
Fixpoint first_nonempty_string (o : value) (keys : list jsstring)
    : option jsstring :=
  match keys with
  | [] => None
  | k :: rest =>
      match lookup o k with
      | VStr (c :: s) => Some (c :: s)
      | _ => first_nonempty_string o rest
      end
  end.

(** The text lines 179-183 leave: that string, or [''] when there is none. *)
Definition candidate_text (c : value) : value :=
  match first_nonempty_string c TEXT_KEYS with
  | Some s => VStr s
  | None => VStr []
  end.

(** The products lines 185-187 leave. *)
Definition candidate_products (c : value) : list value :=
  match lookup c Key.products with
  | VArr items => filter keep items
  | _ => []
  end.

(** The comparison lines 188-194 leave. *)
Definition candidate_comparison (c : value) : option value :=
  if comparison_ok (lookup c Key.comparison)
  then Some (lookup c Key.comparison) else None.

(** The locals after lines 178-194 on the candidate object [c]. *)
Definition candidate_locals (c : value) : Locals :=
  mkLocals (candidate_text c) (candidate_products c) (candidate_comparison c).

(** [innerResult.response || innerResult.text || innerResult.message || ''] *)
Definition inner_text (inner : value) : value :=
  or_else (lookup inner Key.response)
    (or_else (lookup inner Key.text)
       (or_else (lookup inner Key.message) (VStr []))).

(** The locals after lines 215-221 on the object [inner]. *)
Definition inner_locals (inner : value) (l : Locals) : Locals :=
  mkLocals (inner_text inner)
    (match l_products l, lookup inner Key.products with
     | [], VArr items => filter keep items
     | ps, _ => ps
     end)
    (match l_comparison l with
     | None => if inner_comparison_ok (lookup inner Key.comparison)
               then Some (lookup inner Key.comparison) else None
     | Some x => Some x
     end).

(** The text after one [if (!text) text = ...] of lines 180-183. *)
Definition probe_value (c : value) (t : value) (k : jsstring) : value :=
  if truthy t then t else string_or_empty (lookup c k).

(** Lines 197-200 *)
Definition message_locals (response : value) (l : Locals) : Locals :=
  if truthy (l_text l) then l
  else with_text (or_else (lookup response Key.message) (VStr [])) l.

(** Lines 232-235 *)
Definition final_locals (l : Locals) : Locals :=
  if truthy (l_text l) then l else with_text (VStr MSG_UNFORMATTED) l.

Section NormaliserReading.

Variable JSON_parse : value -> option value.

(** The locals [raw_response_fallback] leaves. *)
Definition fallback_locals (result : value) (l : Locals) : Locals :=
  let rr := lookup result Key.raw_response in
  match JSON_parse rr with
  | None =>
      match rr with
      | VStr (_ :: _) => with_text rr l
      | _ => l
      end
  | Some rawParsed =>
      if is_string rawParsed then with_text rawParsed l
      else
        let r := opt_prop rawParsed Key.response in
        if truthy r && is_string r then with_text r l
        else
          let inner := opt_prop r Key.result in
          if truthy inner
          then if is_string inner then with_text inner l
               else if typeof_object inner then inner_locals inner l else l
          else l
  end.

(** The locals after lines 160-195: the result field read, parsed when it
    is a string, and the candidate object mined. *)
Definition structured_locals (raw : value) : Locals :=
  if truthy raw && typeof_object raw && negb (isArray raw)
  then candidate_locals raw
  else if is_string raw
  then match JSON_parse raw with
       | Some parsed =>
           if truthy parsed && typeof_object parsed
           then candidate_locals parsed else init_locals
       | None => with_text raw init_locals
       end
  else init_locals.

(** Lines 202-230 *)
Definition raw_locals (result : value) (l : Locals) : Locals :=
  if truthy (l_text l) then l
  else if truthy (lookup result Key.raw_response)
  then fallback_locals result l else l.

(** The locals at line 235, for a reply that passed the guard of line 155. *)
Definition normalised_locals (result : value) : Locals :=
  let response := lookup result Key.response in
  final_locals
    (raw_locals result
       (message_locals response
          (structured_locals (lookup response Key.result)))).

(** ** The candidate object

    The value of [parsed] when the test of line 177 passes: the [result]
    field of the reply's [response] when that is an object and no array, or
    what [JSON.parse] makes of it when it is a string and the outcome is an
    object or an array. *)
Definition candidate_of (result : value) : option value :=
  if truthy result && truthy (lookup result Key.success)
     && truthy (lookup result Key.response)
  then
    let raw := lookup (lookup result Key.response) Key.result in
    if truthy raw && typeof_object raw && negb (isArray raw) then Some raw
    else if is_string raw
    then match JSON_parse raw with
         | Some parsed =>
             if truthy parsed && typeof_object parsed then Some parsed else None
         | None => None
         end
    else None
  else None.

End NormaliserReading.

(** The fallback on [raw_response] is not reached: the candidate or the
    top-level [message] gave a text, or there is no [raw_response]. *)
Definition fallback_skipped (result c : value) : Prop :=
  first_nonempty_string c TEXT_KEYS <> None
  \/ truthy (lookup (lookup result Key.response) Key.message) = true
  \/ truthy (lookup result Key.raw_response) = false.

(** An [AIAgentResponse] that succeeded with [r] in its [result] field. *)
Definition agent_reply (r : value) : value :=
  VObj [(Key.success, VBool true); (Key.response, VObj [(Key.result, r)])].

(** * Reading the message flow *)

(** The number of messages of the user in a list of messages. *)
Definition user_count (ms : list Message.t) : nat :=
  List.length (filter is_user ms).

(** The invariant of the data model: a message of the user carries no
    products, no comparison and no error flag, and an assistant message
    flagged as an error carries no products and no comparison. *)
Definition message_ok (m : Message.t) : Prop :=
  match Message.role m with
  | User =>
      Message.products m = None /\ Message.comparison m = None
      /\ Message.error m = None
  | Assistant =>
      Message.error m = Some true ->
      Message.products m = None /\ Message.comparison m = None
  end.

Definition conversation_ok (c : Conversation.t) : Prop :=
  Forall message_ok (Conversation.messages c).

Definition state_ok (st : AppState) : Prop :=
  Forall conversation_ok (conversations st).

(** The page together with the calls of [callAIAgent] not yet settled. *)
Record System : Type := mkSystem {
  app : AppState;
  inflight : list Pending
}.

Definition started (op : option Pending) : list Pending :=
  match op with
  | Some p => [p]
  | None => []
  end.

Section Reachability.

Variable JSON_parse : value -> option value.

(** One event of the page: typing, the "New Conversation" button, a click
    on a sidebar entry, a submission, a retry, or the end of a gateway
    call.  Retry is taken whenever it is called, not only when its button
    is shown. *)
Inductive step : System -> System -> Prop :=
| step_type (s : System) (text : jsstring) :
    step s (mkSystem (setInputValue text (app s)) (inflight s))
| step_create (s : System) (d : CreateDraws) :
    step s (mkSystem (createNewConversation d (app s)) (inflight s))
| step_select (s : System) (c : Conversation.t) :
    In c (conversations (app s)) ->
    step s (mkSystem (selectConversation (Conversation.id c) (app s))
                     (inflight s))
| step_send (s : System) (d : SendDraws) (text : jsstring) :
    step s (mkSystem (fst (sendMessage (app s) d (VStr text)))
                     (started (snd (sendMessage (app s) d (VStr text)))
                      ++ inflight s))
| step_retry (s : System) (d : SendDraws) :
    step s (mkSystem (fst (retryLastMessage (app s) d))
                     (started (snd (retryLastMessage (app s) d))
                      ++ inflight s))
| step_settle (s : System) (p : Pending) (o : GatewayOutcome)
    (d : SettleDraws) (before after : list Pending) :
    inflight s = before ++ p :: after ->
    step s (mkSystem (sendMessage_settle JSON_parse p o d (app s))
                     (before ++ after)).

Inductive reachable : System -> Prop :=
| reach_init : reachable (mkSystem initial_state [])
| reach_step (s s' : System) : reachable s -> step s s' -> reachable s'.

(** A retry followed at once by the end of the gateway call it started. *)
Definition retry_then_settle (st : AppState) (d : SendDraws)
    (o : GatewayOutcome) (d' : SettleDraws) : AppState :=
  match retryLastMessage st d with
  | (st1, Some p) => sendMessage_settle JSON_parse p o d' st1
  | (st1, None) => st1
  end.

End Reachability.

(** ** Concrete replies and states *)

(** A [JSON.parse] that knows the texts of [tbl] and throws on every other
    argument; it stands for the parser on the replies below, which hand it
    no other text. *)
Definition parse_table (tbl : list (jsstring * value)) (v : value)
    : option value :=
  match v with
  | VStr s =>
      match find (fun e => str_eqb (fst e) s) tbl with
      | Some e => Some (snd e)
      | None => None
      end
  | _ => None
  end.

Module Example.

(** No text is handed to the parser in the replies whose [result] is an
    object and which have no [raw_response]. *)
Definition no_json : value -> option value := parse_table [].

Definition hubspot : value := VObj [(Key.name, VStr (js "HubSpot CRM"))].

(** [{ response: 'Try HubSpot', message: 'ok' }] *)
Definition both_keys : value :=
  VObj [(Key.response, VStr (js "Try HubSpot"));
        (Key.message, VStr (js "ok"))].

(** One entry with a name, one without. *)
Definition mixed_products : list value :=
  [hubspot; VObj [(js "description", VStr (js "no name"))]].

Definition with_mixed_products : value :=
  VObj [(Key.response, VStr (js "Try HubSpot"));
        (Key.products, VArr mixed_products)].

(** [{ response: 'Try this', products: [{ name: '' }] }] *)
Definition with_empty_name : value :=
  VObj [(Key.response, VStr (js "Try this"));
        (Key.products, VArr [VObj [(Key.name, VStr [])]])].

(** [{ products: [{ name: 'HubSpot CRM' }] }]: products and no text key. *)
Definition products_only : value :=
  VObj [(Key.products, VArr [hubspot])].

(** [{ status: 'ok' }]: no text key, no products, no comparison. *)
Definition status_only : value :=
  VObj [(js "status", VStr (js "ok"))].

(** [{ response: 'Compare', comparison: [] }] *)
Definition list_comparison_with_text : value :=
  VObj [(Key.response, VStr (js "Compare")); (Key.comparison, VArr [])].

(** [{ comparison: [] }] *)
Definition list_comparison : value :=
  VObj [(Key.comparison, VArr [])].

(** A key between double quotes (code unit 34). *)
Definition quoted (k : jsstring) : jsstring := (34%N :: k) ++ [34%N].

(** The text [{"response":{"result":{"comparison":{"attributes":[]}}}}] *)
Definition raw_text : jsstring :=
  js "{" ++ quoted Key.response ++ js ":{" ++ quoted Key.result ++ js ":{"
  ++ quoted Key.comparison ++ js ":{" ++ quoted Key.attributes
  ++ js ":[]}}}}".

(** What [JSON.parse] makes of [raw_text]. *)
Definition raw_parsed : value :=
  VObj [(Key.response,
         VObj [(Key.result,
                VObj [(Key.comparison, VObj [(Key.attributes, VArr [])])])])].

Definition raw_json : value -> option value :=
  parse_table [(raw_text, raw_parsed)].

(** A successful reply whose candidate is [list_comparison] and whose
    [raw_response] is [raw_text]. *)
Definition reply_with_raw : value :=
  VObj [(Key.success, VBool true);
        (Key.response, VObj [(Key.result, list_comparison)]);
        (Key.raw_response, VStr raw_text)].

Definition stamp : jsstring := js "2026-01-01T00:00:00.000Z".

Definition first_send : SendDraws :=
  mkSendDraws (js "s0") (js "c1") (js "s1") stamp stamp (js "m1") stamp stamp.

Definition second_send : SendDraws :=
  mkSendDraws (js "s2") (js "c2") (js "s3") stamp stamp (js "m3") stamp stamp.

Definition first_settle : SettleDraws := mkSettleDraws (js "m2") stamp stamp.

Definition second_settle : SettleDraws := mkSettleDraws (js "m4") stamp stamp.

Definition other_conversation : CreateDraws :=
  mkCreateDraws (js "c9") (js "s9") stamp stamp.

(** The page after "Find me a CRM" was submitted on the initial state. *)
Definition sending : AppState :=
  fst (sendMessage initial_state first_send (VStr (js "Find me a CRM"))).

(** What the continuation of that submission keeps. *)
Definition first_pending : Pending :=
  mkPending (js "c1") (js "s1") (js "Find me a CRM").

(** The page after the gateway call of that submission was rejected. *)
Definition failed : AppState :=
  sendMessage_settle no_json first_pending Rejected first_settle sending.

(** The conversation of [failed]: the user message and the error. *)
Definition failed_conversation : Conversation.t :=
  Conversation.mk (js "c1") (js "s1") (js "Find me a CRM")
    [userMsg first_send (js "Find me a CRM"); errorMsg first_settle]
    stamp stamp.

(** The user counts of the conversations of a state. *)
Definition user_counts (st : AppState) : list nat :=
  map (fun c => user_count (Conversation.messages c)) (conversations st).

End Example.

(** * The rest of the page

    The helpers and components of [page.tsx] around the message flow: the
    age of a timestamp, the markdown renderer, what a message bubble selects
    for display, the comparison table, and the effects that load stored or
    sample conversations. *)

From Stdlib Require Import ZArith DecimalString.

(** ** [relativeTime] *)

(** [String(n)] for an integer [n >= 0]. *)
Definition decimal (n : N) : jsstring :=
  js (NilZero.string_of_uint (N.to_uint n)).

(** Lines 131-147.  [now] is [Date.now()], [date] is
    [new Date(dateString).getTime()] with [None] for [NaN] (a string that is
    no date), [localeDate] is what [toLocaleDateString()] returns.  Time
    values are integers of milliseconds of magnitude below [2^53], on which
    [Math.floor(x / 60000)] is the integer quotient rounded down: the exact
    quotient of a non-multiple is at least [1/60000] away from the next
    integer, more than half the spacing of doubles in that range.  [NaN]
    fails every comparison, which leads to the last [return]; nothing in
    the [try] block throws, so the [catch] is not modelled. *)
Definition relativeTime (now : Z) (date : option Z) (localeDate : jsstring)
    : jsstring :=
  match date with
  | None => localeDate
  | Some t =>
      let diff := (now - t)%Z in
      let mins := (diff / 60000)%Z in
      if (mins <? 1)%Z then js "Just now"
      else if (mins <? 60)%Z then decimal (Z.to_N mins) ++ js "m ago"
      else
        let hours := (mins / 60)%Z in
        if (hours <? 24)%Z then decimal (Z.to_N hours) ++ js "h ago"
        else
          let days := (hours / 24)%Z in
          if (days <? 7)%Z then decimal (Z.to_N days) ++ js "d ago"
          else localeDate
  end.

(** ** [formatInline] and [renderMarkdown] *)

(** The line terminators, which [.] does not match in a regular expression
    without the [s] flag. *)
Definition is_line_terminator (c : N) : bool :=
  match c with
  | 10 | 13 | 8232 | 8233 => true
  | _ => false
  end%N.

(** [s.startsWith(prefix)] *)
Fixpoint startsWith (prefix s : jsstring) : bool :=
  match prefix, s with
  | [], _ => true
  | p :: prefix', c :: s' => N.eqb p c && startsWith prefix' s'
  | _ :: _, [] => false
  end.

(** Two asterisks. *)
Definition MARK : jsstring := js "**".

(** The match of [(.*?)\*\*] at the head of [s]: the shortest run of code
    units that are no line terminators and are followed by two asterisks,
    with what follows the asterisks. *)
Fixpoint lazy_close (s : jsstring) : option (jsstring * jsstring) :=
  match s with
  | [] => None
  | c :: s' =>
      if startsWith MARK (c :: s') then Some ([], skipn 2 (c :: s'))
      else if is_line_terminator c then None
      else match lazy_close s' with
           | Some (captured, rest) => Some (c :: captured, rest)
           | None => None
           end
  end.

(** The match of [/\*\*(.*?)\*\*/] at the head of [s]: the captured group
    and the text after the match. *)
Definition match_bold (s : jsstring) : option (jsstring * jsstring) :=
  if startsWith MARK s then lazy_close (skipn 2 s) else None.

(** [text.split(/\*\*(.*?)\*\*/g)] from a position of the text on, as
    [RegExp.prototype[Symbol.split]] runs: [pending] is the text since the
    end of the last match, [s] the text from the position tried next; a
    match closes [pending], adds the captured group and goes on after the
    match, a failure moves one code unit on.  A step consumes at least one
    code unit, so [fuel] above the length of [s] is never used up. *)
Fixpoint split_bold (fuel : nat) (pending s : jsstring) : list jsstring :=
  match fuel with
  | 0 => [pending ++ s]
  | S fuel' =>
      match s with
      | [] => [pending]
      | c :: s' =>
          match match_bold s with
          | Some (captured, rest) =>
              pending :: captured :: split_bold fuel' [] rest
          | None => split_bold fuel' (pending ++ [c]) s'
          end
      end
  end.

(** What [formatInline] renders: text, or text in a [<strong>]. *)
Inductive Inline : Type :=
| Plain (s : jsstring)
| Strong (s : jsstring).

(** [parts.map((part, i) => i % 2 === 1 ? <strong>{part}</strong> : part)]
    from the index [i] on. *)
Fixpoint tag_parts (i : nat) (parts : list jsstring) : list Inline :=
  match parts with
  | [] => []
  | part :: rest =>
      (if Nat.eqb (Nat.modulo i 2) 1 then Strong part else Plain part)
      :: tag_parts (S i) rest
  end.

(** Lines 290-302.  The string returned when there is one part is the one
    text node [Plain text]. *)
Definition formatInline (text : jsstring) : list Inline :=
  let parts := split_bold (S (List.length text)) [] text in
  if Nat.eqb (List.length parts) 1 then [Plain text]
  else tag_parts 0 parts.

(** [\d] *)
Definition is_digit (c : N) : bool := (N.leb 48 c && N.leb c 57)%N.

Fixpoint skip_digits (s : jsstring) : jsstring :=
  match s with
  | c :: s' => if is_digit c then skip_digits s' else s
  | [] => []
  end.

(** The text after the match of [/^\d+\.\s/] in [line], when there is one:
    digits, as many as there are, a full stop (code unit 46) and one
    white-space code unit. *)
Definition numbered_rest (line : jsstring) : option jsstring :=
  match line with
  | c :: _ =>
      if is_digit c
      then match skip_digits line with
           | x :: w :: rest =>
               if N.eqb x 46 && is_white_space w then Some rest else None
           | _ => None
           end
      else None
  | [] => None
  end.

(** [text.split('\n')] from a position on, [line] being the line begun. *)
Fixpoint split_lines (line s : jsstring) : list jsstring :=
  match s with
  | [] => [line]
  | c :: s' =>
      if N.eqb c 10 then line :: split_lines [] s'
      else split_lines (line ++ [c]) s'
  end.

(** The element [renderMarkdown] makes of a line. *)
Inductive Block : Type :=
| H4 (s : jsstring)
| H3 (s : jsstring)
| H2 (s : jsstring)
| Bullet (content : list Inline)
| Numbered (content : list Inline)
| Spacer
| Paragraph (content : list Inline).

(** The callback of lines 248-285. *)
Definition render_line (line : jsstring) : Block :=
  if startsWith (js "### ") line then H4 (skipn 4 line)
  else if startsWith (js "## ") line then H3 (skipn 3 line)
  else if startsWith (js "# ") line then H2 (skipn 2 line)
  else if startsWith (js "- ") line || startsWith (js "* ") line
  then Bullet (formatInline (skipn 2 line))
  else match numbered_rest line with
       | Some rest => Numbered (formatInline rest)
       | None =>
           if negb (truthy (VStr (trim line))) then Spacer
           else Paragraph (formatInline line)
       end.

(** Lines 244-288: [None] is [null]. *)
Definition renderMarkdown (text : jsstring) : option (list Block) :=
  if negb (truthy (VStr text)) then None
  else Some (map render_line (split_lines [] text)).

(** ** [ComparisonTable], [ProductCard] and [MessageBubble] *)

(** [Array.isArray(v) ? v : []] *)
Definition array_or_empty (v : value) : list value :=
  match v with
  | VArr items => items
  | _ => []
  end.

(** [a ?? b] *)
Definition nullish_or (a b : value) : value := if nullish a then b else a.

(** [items[i]] *)
Definition at_index (items : list value) (i : nat) : value :=
  nth i items VUndefined.

(** [l.map((x, i) => f(i, x))] from the index [i] on. *)
Fixpoint mapi_from {A B : Type} (i : nat) (f : nat -> A -> B) (l : list A)
    : list B :=
  match l with
  | [] => []
  | x :: rest => f i x :: mapi_from (S i) f rest
  end.

Module Field.
Definition values := js "values".
Definition features := js "features".
End Field.

(** What the table shows: the product headings after the fixed "Attribute"
    one, and per attribute its label and one cell per product. *)
Record Table : Type := mkTable {
  headings : list value;
  rows : list (value * list value)
}.

(** The cell of line 393-396.  On a product that is an array, [p.values] is
    the iterator method of arrays, no array either, so the cell is the same
    as with [undefined]. *)
Definition cell (rowIdx : nat) (p : value) : value :=
  nullish_or (at_index (array_or_empty (opt_prop p Field.values)) rowIdx)
             (VStr (js "-")).

(** Lines 369-406: [None] is [null]. *)
Definition ComparisonTable (comparison : value) : option Table :=
  let attributes := array_or_empty (opt_prop comparison Key.attributes) in
  let products := array_or_empty (opt_prop comparison Key.products) in
  if Nat.eqb (List.length attributes) 0 || Nat.eqb (List.length products) 0
  then None
  else
    Some (mkTable
            (mapi_from 0
               (fun idx p =>
                  nullish_or (opt_prop p Key.name)
                    (VStr (js "Product " ++ decimal (N.of_nat (idx + 1)))))
               products)
            (mapi_from 0
               (fun rowIdx attr => (attr, map (cell rowIdx) products))
               attributes)).

(** The heading of a product card, line 330. *)
Definition card_heading (product : value) : value :=
  nullish_or (opt_prop product Key.name) (VStr (js "Unnamed Product")).




(** ** Stored and sample conversations *)

(** Lines 72-117.  The four timestamps are computed from [Date.now()] when
    the module is loaded. *)
Definition SAMPLE_CONVERSATIONS (t1 t2 t3 t4 : jsstring)
    : list Conversation.t :=
  [Conversation.mk (js "sample-1") (js "sample-session-1")
     (js "CRM for small team")
     [Message.mk (js "sm-1") User
        (VStr (js "I need a CRM for a small team of 5 people."))
        None None t1 None;
      Message.mk (js "sm-2") Assistant
        (VStr (js "Based on your team size and needs, here are my top CRM recommendations that balance functionality with ease of use for small teams."))
        (Some
           [VObj [(Key.name, VStr (js "HubSpot CRM"));
                  (js "description",
                   VStr (js "Free CRM with powerful marketing and sales tools built-in."));
                  (Field.features,
                   VArr [VStr (js "Contact management");
                         VStr (js "Email tracking");
                         VStr (js "Pipeline view");
                         VStr (js "Free tier")]);
                  (js "price", VStr (js "Free - $45/mo"));
                  (js "rationale",
                   VStr (js "Perfect for small teams starting out with CRM. The free tier is generous and covers most needs."))];
            VObj [(Key.name, VStr (js "Pipedrive"));
                  (js "description",
                   VStr (js "Sales-focused CRM with an intuitive visual pipeline interface."));
                  (Field.features,
                   VArr [VStr (js "Visual pipeline");
                         VStr (js "Activity reminders");
                         VStr (js "Mobile app");
                         VStr (js "Automation")]);
                  (js "price", VStr (js "$14.90/user/mo"));
                  (js "rationale",
                   VStr (js "Great for teams that want a simple, sales-focused tool without the complexity of larger CRMs."))]])
        (Some
           (VObj [(Key.attributes,
                   VArr [VStr (js "Price"); VStr (js "Ease of Use");
                         VStr (js "Integrations"); VStr (js "Mobile App");
                         VStr (js "Support")]);
                  (Key.products,
                   VArr [VObj [(Key.name, VStr (js "HubSpot CRM"));
                               (Field.values,
                                VArr [VStr (js "Free - $45/mo");
                                      VStr (js "Excellent");
                                      VStr (js "500+");
                                      VStr (js "Yes");
                                      VStr (js "Community + Paid")])];
                         VObj [(Key.name, VStr (js "Pipedrive"));
                               (Field.values,
                                VArr [VStr (js "$14.90/user/mo");
                                      VStr (js "Very Good");
                                      VStr (js "300+");
                                      VStr (js "Yes");
                                      VStr (js "Email + Chat")])]])]))
        t2 None]
     t3 t4].

(** What an effect finds in the storage slot: nothing (or the empty string),
    a text [JSON.parse] throws on, a value that is no array, or an array,
    taken to hold conversations as the page casts it. *)
Inductive StorageRead : Type :=
| NoItem
| Unparsable
| NotAnArray
| StoredConversations (stored : list Conversation.t).

(** [l.length > 0 ? l[0].id : null] *)
Definition first_id (l : list Conversation.t) : option jsstring :=
  match l with
  | c :: _ => Some (Conversation.id c)
  | [] => None
  end.

(** Lines 587-600: the effect that loads the stored conversations. *)
Definition loadStored (r : StorageRead) (st : AppState) : AppState :=
  match r with
  | StoredConversations (c :: rest) =>
      setActiveConversationId (Some (Conversation.id c))
        (setConversations (fun _ => c :: rest) st)
  | _ => st
  end.

(** Lines 632-653: the effect on [sampleDataOn], with the timestamps of
    [SAMPLE_CONVERSATIONS]. *)
Definition sampleDataEffect (sampleDataOn : bool) (t1 t2 t3 t4 : jsstring)
    (r : StorageRead) (st : AppState) : AppState :=
  if sampleDataOn
  then setActiveConversationId
         (first_id (SAMPLE_CONVERSATIONS t1 t2 t3 t4))
         (setConversations (fun _ => SAMPLE_CONVERSATIONS t1 t2 t3 t4) st)
  else match r with
       | StoredConversations stored =>
           setActiveConversationId (first_id stored)
             (setConversations (fun _ => stored) st)
       | _ =>
           setActiveConversationId None (setConversations (fun _ => []) st)
       end.

(** ** Reading the rest of the page *)

(** The text [nodes] were made from: a [<strong>] between its asterisks. *)
Fixpoint inline_source (nodes : list Inline) : jsstring :=
  match nodes with
  | [] => []
  | Plain s :: rest => s ++ inline_source rest
  | Strong s :: rest => MARK ++ s ++ MARK ++ inline_source rest
  end.

(** The text the parts of a split were made from: the parts at odd places
    are the captured groups. *)
Fixpoint parts_source (parts : list jsstring) : jsstring :=
  match parts with
  | [] => []
  | [t] => t
  | t :: captured :: more => t ++ MARK ++ captured ++ MARK ++ parts_source more
  end.

(** The parts at odd places. *)
Fixpoint odd_parts (parts : list jsstring) : list jsstring :=
  match parts with
  | _ :: captured :: more => captured :: odd_parts more
  | _ => []
  end.

(** [s] holds two asterisks in a row. *)
Fixpoint has_marker (s : jsstring) : bool :=
  match s with
  | [] => false
  | c :: s' => startsWith MARK (c :: s') || has_marker s'
  end.

(** No code unit of [s] is a line terminator. *)
Definition one_line (s : jsstring) : bool :=
  forallb (fun c => negb (is_line_terminator c)) s.

(** The lines joined by newlines. *)
Fixpoint join_lines (lines : list jsstring) : jsstring :=
  match lines with
  | [] => []
  | [l] => l
  | l :: rest => l ++ [10%N] ++ join_lines rest
  end.

(** The number of newlines of [s]. *)
Definition newlines (s : jsstring) : nat :=
  List.length (filter (fun c => N.eqb c 10) s).

(** The cell of a product that has no array of values, or none at the row,
    or [null] there. *)
Definition DASH : value := VStr (js "-").


(** The guard of line 155 passes. *)
Definition call_succeeded (result : value) : Prop :=
  truthy result = true
  /\ truthy (lookup result Key.success) = true
  /\ truthy (lookup result Key.response) = true.

(** The active id is [null] or the id of a conversation of the list. *)
Definition active_valid (st : AppState) : Prop :=
  match activeConversationId st with
  | None => True
  | Some x => exists c, In c (conversations st) /\ Conversation.id c = x
  end.

(** The last [setProcessing] call made on the observer. *)
Definition last_processing (calls : list ObserverCall) : option bool :=
  fold_left (fun acc c => match c with
                          | ObsSetProcessing b => Some b
                          | ObsReset => acc
                          end) calls None.

(** [c'] continues [c]: the same conversation, with the messages of [c]
    that are no errors still there, in their order, before any other. *)
Definition continues (c c' : Conversation.t) : Prop :=
  Conversation.id c' = Conversation.id c
  /\ Conversation.sessionId c' = Conversation.sessionId c
  /\ Conversation.createdAt c' = Conversation.createdAt c
  /\ exists later,
       filter not_error (Conversation.messages c')
       = filter not_error (Conversation.messages c) ++ later.

(** The conversations [l'] continue those of [l], [k] new ones in front. *)
Definition history_kept (k : nat) (l l' : list Conversation.t) : Prop :=
  List.length l' = k + List.length l
  /\ forall i c, nth_error l i = Some c ->
                 exists c', nth_error l' (k + i) = Some c' /\ continues c c'.

(** A message of the user holds a text that is trimmed and not empty. *)
Definition user_text_ok (m : Message.t) : Prop :=
  Message.role m = User ->
  exists s, Message.content m = VStr s /\ s <> [] /\ trim s = s.

(** The loading flag, the calls in flight and the observer agree. *)
Definition flight_ok (s : System) : Prop :=
  ((isLoading (app s) = true /\ exists p, inflight s = [p])
   \/ (isLoading (app s) = false /\ inflight s = []))
  /\ match last_processing (observerCalls (app s)) with
     | Some b => b = isLoading (app s)
     | None => isLoading (app s) = false
     end.

Definition texts_ok (c : Conversation.t) : Prop :=
  Forall user_text_ok (Conversation.messages c).

Section Page.

Variable JSON_parse : value -> option value.

(** The events of [step], and the two effects that replace the
    conversations, run on any content of the storage slot and with the
    sample switch either way. *)
Inductive page_step : System -> System -> Prop :=
| page_flow (s s' : System) : step JSON_parse s s' -> page_step s s'
| page_load (s : System) (r : StorageRead) :
    page_step s (mkSystem (loadStored r (app s)) (inflight s))
| page_sample (s : System) (on : bool) (t1 t2 t3 t4 : jsstring)
    (r : StorageRead) :
    page_step s
      (mkSystem (sampleDataEffect on t1 t2 t3 t4 r (app s)) (inflight s)).

Inductive page_reachable : System -> Prop :=
| page_init : page_reachable (mkSystem initial_state [])
| page_next (s s' : System) :
    page_reachable s -> page_step s s' -> page_reachable s'.

End Page.

(** ** More concrete replies *)

Module Sample.

(** [{ success: false, error: 'timeout' }] *)
Definition failed_reply : value :=
  VObj [(Key.success, VBool false); (Key.error, VStr (js "timeout"))].

(** A successful reply whose [result] is the string [Just text]. *)
Definition plain_reply : value := agent_reply (VStr (js "Just text")).

(** A successful reply with [{ status: 'ok' }] as [result] and a top-level
    [message]. *)
Definition message_reply : value :=
  VObj [(Key.success, VBool true);
        (Key.response,
         VObj [(Key.result, Example.status_only);
               (Key.message, VStr (js "From message"))])].

(** The same [result], no [message], and a [raw_response] that is no JSON. *)
Definition raw_plain_reply : value :=
  VObj [(Key.success, VBool true);
        (Key.response, VObj [(Key.result, Example.status_only)]);
        (Key.raw_response, VStr (js "plain raw"))].

(** The object nested in [Example.raw_parsed]. *)
Definition nested : value :=
  VObj [(Key.comparison, VObj [(Key.attributes, VArr [])])].

(** A comparison with two attributes, a product with one value and a
    [null], and a product with neither name nor values. *)
Definition uneven_comparison : value :=
  VObj [(Key.attributes, VArr [VStr (js "Price"); VStr (js "Support")]);
        (Key.products,
         VArr [VObj [(Key.name, VStr (js "A"));
                     (Field.values, VArr [VStr (js "1"); VNull])];
               VObj [(js "label", VStr (js "B"))]])].


(** The page after the sample data was switched on from the start. *)
Definition sample_page : AppState :=
  sampleDataEffect true Example.stamp Example.stamp Example.stamp
    Example.stamp NoItem initial_state.

End Sample.

(** * Properties of the normaliser *)

Lemma truthy_not_nullish (v : value) : truthy v = true -> nullish v = false.
Proof. destruct v; simpl; intros H; try reflexivity; discriminate H. Qed.

Lemma prop_run (o : value) (k : jsstring) (l : Locals) :
  nullish o = false -> prop o k l = (l, Some (lookup o k)).
Proof. intros H. unfold prop. rewrite H. reflexivity. Qed.

Lemma opt_prop_lookup (o : value) (k : jsstring) :
  nullish o = false -> opt_prop o k = lookup o k.
Proof. intros H. unfold opt_prop. rewrite H. reflexivity. Qed.

Lemma keep_product_run (p : value) (l : Locals) :
  keep_product p l = (l, Some (keep p)).
Proof.
  unfold keep_product, keep.
  destruct (truthy p) eqn:Hp; [|reflexivity].
  unfold bind. rewrite (prop_run _ _ _ (truthy_not_nullish _ Hp)). reflexivity.
Qed.

Lemma filterM_keep_run (xs : list value) (l : Locals) :
  filterM keep_product xs l = (l, Some (filter keep xs)).
Proof.
  induction xs as [|x rest IH]; [reflexivity|].
  simpl. unfold bind at 1. rewrite keep_product_run.
  unfold bind. rewrite IH. unfold ret. destruct (keep x); reflexivity.
Qed.

Lemma truthy_string_or_empty (v : value) :
  truthy (string_or_empty v) = true ->
  exists c s, v = VStr (c :: s).
Proof.
  destruct v; simpl; try discriminate.
  destruct s as [|c s]; [discriminate|]. intros _. now exists c, s.
Qed.

Lemma probe_text_run (parsed : value) (k : jsstring) (l : Locals) :
  nullish parsed = false ->
  probe_text parsed k l =
  (if truthy (l_text l) then l
   else with_text (string_or_empty (lookup parsed k)) l, Some tt).
Proof.
  intros H. unfold probe_text, bind, get_text.
  destruct (truthy (l_text l)); simpl; [reflexivity|].
  rewrite (prop_run _ _ _ H). reflexivity.
Qed.

Lemma probe_text_run' (parsed : value) (k : jsstring) (l : Locals) :
  nullish parsed = false ->
  probe_text parsed k l = (with_text (probe_value parsed (l_text l) k) l, Some tt).
Proof.
  intros H. rewrite probe_text_run by exact H. unfold probe_value.
  destruct l as [t ps cmp]; simpl. destruct (truthy t); reflexivity.
Qed.

Ltac locals := unfold with_text; cbn [l_text l_products l_comparison].

Lemma probe_chain (c : value) (keys : list jsstring) :
  fold_left (probe_value c) keys (VStr []) =
  match first_nonempty_string c keys with
  | Some s => VStr s
  | None => VStr []
  end.
Proof.
  assert (Hstay : forall ks t, truthy t = true ->
                               fold_left (probe_value c) ks t = t).
  { induction ks as [|k ks IH]; intros t Ht; [reflexivity|].
    simpl. unfold probe_value at 2. rewrite Ht. now apply IH. }
  induction keys as [|k rest IH]; [reflexivity|].
  simpl. unfold probe_value at 2. simpl truthy. cbv iota.
  unfold string_or_empty.
  destruct (lookup c k) as [| | | |[|ch s]| |]; simpl is_string; cbv iota;
    try exact IH.
  apply Hstay. reflexivity.
Qed.

Lemma extract_structured_run (c : value) (l : Locals) :
  nullish c = false ->
  extract_structured c l = (candidate_locals c, Some tt).
Proof.
  intros H. unfold extract_structured.
  unfold bind at 1. rewrite (prop_run _ _ _ H).
  unfold bind at 1. unfold set_text at 1. locals.
  do 4 (unfold bind at 1; rewrite (probe_text_run' _ _ _ H); locals).
  unfold bind at 1. rewrite (prop_run _ _ _ H).
  unfold bind at 1.
  assert (Hps : forall l0 : Locals,
             match lookup c Key.products with
             | VArr items => kept <- filterM keep_product items ;; set_products kept
             | _ => set_products []
             end l0
             = (mkLocals (l_text l0) (candidate_products c) (l_comparison l0),
                Some tt)).
  { intros l0. unfold candidate_products.
    destruct (lookup c Key.products); try reflexivity.
    unfold bind. rewrite filterM_keep_run. reflexivity. }
  rewrite Hps. locals. unfold bind. rewrite (prop_run _ _ _ H).
  unfold set_comparison, candidate_locals, candidate_comparison. locals.
  f_equal. f_equal.
  unfold candidate_text. rewrite <- probe_chain.
  unfold TEXT_KEYS. cbn [fold_left].
  unfold probe_value at 5. reflexivity.
Qed.

Section NormaliserFacts.

Variable JSON_parse : value -> option value.

Lemma extract_inner_run (inner : value) (l : Locals) :
  nullish inner = false ->
  extract_inner inner l = (inner_locals inner l, Some tt).
Proof.
  intros H. unfold extract_inner.
  unfold bind at 1. rewrite (prop_run _ _ _ H).
  assert (Ht : forall l0 : Locals,
             (if truthy (lookup inner Key.response)
              then ret (lookup inner Key.response)
              else b <- prop inner Key.text ;;
                   if truthy b then ret b
                   else c <- prop inner Key.message ;;
                        ret (or_else c (VStr []))) l0
             = (l0, Some (inner_text inner))).
  { intros l0. unfold inner_text, or_else.
    destruct (truthy (lookup inner Key.response)); [reflexivity|].
    unfold bind at 1. rewrite (prop_run _ _ _ H).
    destruct (truthy (lookup inner Key.text)); [reflexivity|].
    unfold bind. rewrite (prop_run _ _ _ H). reflexivity. }
  unfold bind at 1. rewrite Ht.
  unfold bind at 1. unfold set_text at 1.
  unfold bind at 1. unfold get_products at 1. locals.
  unfold inner_locals.
  destruct l as [t ps cmp]. locals.
  assert (Hps :
    (if Nat.eqb (List.length ps) 0
     then ips <- prop inner Key.products ;;
          match ips with
          | VArr items => kept <- filterM keep_product items ;; set_products kept
          | _ => ret tt
          end
     else ret tt) (mkLocals (inner_text inner) ps cmp)
    = (mkLocals (inner_text inner)
         (match ps, lookup inner Key.products with
          | [], VArr items => filter keep items
          | ps0, _ => ps0
          end) cmp, Some tt)).
  { destruct ps as [|p ps]; cbn [List.length Nat.eqb].
    - unfold bind at 1. rewrite (prop_run _ _ _ H).
      destruct (lookup inner Key.products); try reflexivity.
      unfold bind. rewrite filterM_keep_run. reflexivity.
    - reflexivity. }
  unfold bind at 1. rewrite Hps.
  unfold bind at 1. unfold get_comparison at 1. locals.
  destruct cmp as [x|].
  - unfold ret. destruct ps; reflexivity.
  - unfold bind. rewrite (prop_run _ _ _ H).
    destruct (inner_comparison_ok (lookup inner Key.comparison));
      destruct ps; reflexivity.
Qed.

Lemma truthy_opt_prop (o : value) (k : jsstring) :
  truthy (opt_prop o k) = true -> nullish o = false.
Proof.
  unfold opt_prop. destruct (nullish o); [discriminate|reflexivity].
Qed.

Lemma raw_response_fallback_run (result : value) (l : Locals) :
  nullish result = false ->
  raw_response_fallback JSON_parse result l
  = (fallback_locals JSON_parse result l, Some tt).
Proof.
  intros H. unfold raw_response_fallback, fallback_locals, try_catch.
  unfold bind at 1. rewrite (prop_run _ _ _ H).
  unfold bind at 1. unfold json_parse.
  destruct (JSON_parse (lookup result Key.raw_response)) as [rawParsed|].
  - unfold ret at 1.
    destruct (is_string rawParsed) eqn:Hs; [reflexivity|].
    destruct (truthy (opt_prop rawParsed Key.response)
              && is_string (opt_prop rawParsed Key.response)) eqn:Hr.
    + apply andb_prop in Hr. destruct Hr as [Hr _].
      pose proof (truthy_opt_prop _ _ Hr) as Hn.
      unfold bind. rewrite (prop_run _ _ _ Hn).
      rewrite (opt_prop_lookup _ _ Hn). reflexivity.
    + destruct (truthy (opt_prop (opt_prop rawParsed Key.response) Key.result))
        eqn:Hi; [|reflexivity].
      pose proof (truthy_opt_prop _ _ Hi) as Hn1.
      assert (Hn0 : nullish rawParsed = false).
      { unfold opt_prop in Hn1 at 1.
        destruct (nullish rawParsed); [discriminate Hn1|reflexivity]. }
      unfold bind at 1. rewrite (prop_run _ _ _ Hn0).
      rewrite (opt_prop_lookup _ _ Hn0) in *.
      unfold bind at 1. rewrite (prop_run _ _ _ Hn1).
      rewrite (opt_prop_lookup _ _ Hn1) in *.
      destruct (is_string (lookup (lookup rawParsed Key.response) Key.result));
        [reflexivity|].
      destruct (typeof_object (lookup (lookup rawParsed Key.response) Key.result));
        [|reflexivity].
      rewrite extract_inner_run by (apply truthy_not_nullish; exact Hi).
      reflexivity.
  - unfold throw at 1. unfold bind. rewrite (prop_run _ _ _ H).
    destruct (lookup result Key.raw_response) as [| | | |[|c s]| |];
      reflexivity.
Qed.

Lemma normalise_reply_run (result : value) :
  truthy result = true ->
  truthy (lookup result Key.response) = true ->
  normalise_reply JSON_parse result init_locals
  = (normalised_locals JSON_parse result, Some None).
Proof.
  intros Hres Hresp.
  pose proof (truthy_not_nullish _ Hres) as Hn.
  pose proof (truthy_not_nullish _ Hresp) as Hnr.
  unfold normalise_reply, normalised_locals.
  unfold bind at 1. rewrite (prop_run _ _ _ Hn).
  unfold bind at 1. rewrite (prop_run _ _ _ Hnr).
  set (response := lookup result Key.response) in *.
  set (raw := lookup response Key.result).
  assert (H1 :
    (parsed <- parse_result_field JSON_parse raw ;;
     (if truthy parsed && typeof_object parsed
      then extract_structured parsed else ret tt)) init_locals
    = (structured_locals JSON_parse raw, Some tt)).
  { unfold parse_result_field, structured_locals, bind.
    destruct (truthy raw && typeof_object raw && negb (isArray raw)) eqn:Hobj.
    - unfold ret at 1.
      apply andb_prop in Hobj. destruct Hobj as [Hobj _].
      rewrite Hobj. apply andb_prop in Hobj. destruct Hobj as [Ht _].
      apply extract_structured_run. now apply truthy_not_nullish.
    - destruct (is_string raw); [|reflexivity].
      unfold try_catch, json_parse.
      destruct (JSON_parse raw) as [parsed|].
      + unfold ret at 1.
        destruct (truthy parsed && typeof_object parsed) eqn:Hp; [|reflexivity].
        apply andb_prop in Hp. destruct Hp as [Ht _].
        apply extract_structured_run. now apply truthy_not_nullish.
      + reflexivity. }
  unfold bind at 1.
  unfold bind in H1 at 1.
  destruct (parse_result_field JSON_parse raw init_locals) as [l0 [parsed|]].
  2:{ discriminate H1. }
  unfold bind at 1. rewrite H1.
  set (l1 := structured_locals JSON_parse raw).
  unfold bind at 1. unfold get_text at 1.
  assert (H2 :
    (if negb (truthy (l_text l1))
     then m <- prop response Key.message ;; set_text (or_else m (VStr []))
     else ret tt) l1 = (message_locals response l1, Some tt)).
  { unfold message_locals. destruct (truthy (l_text l1)); [reflexivity|].
    cbn [negb]. unfold bind. rewrite (prop_run _ _ _ Hnr).
    reflexivity. }
  unfold bind at 1. rewrite H2.
  set (l2 := message_locals response l1).
  unfold bind at 1. unfold get_text at 1.
  assert (H3 :
    (if negb (truthy (l_text l2))
     then rr <- prop result Key.raw_response ;;
          if truthy rr then raw_response_fallback JSON_parse result else ret tt
     else ret tt) l2 = (raw_locals JSON_parse result l2, Some tt)).
  { unfold raw_locals. destruct (truthy (l_text l2)); [reflexivity|].
    cbn [negb]. unfold bind. rewrite (prop_run _ _ _ Hn).
    destruct (truthy (lookup result Key.raw_response)); [|reflexivity].
    now apply raw_response_fallback_run. }
  unfold bind at 1. rewrite H3.
  set (l3 := raw_locals JSON_parse result l2).
  unfold bind at 1. unfold get_text at 1.
  unfold bind, final_locals.
  destruct (truthy (l_text l3)); reflexivity.
Qed.

(** The three ways through [try_block]: none of them ends in the [catch]. *)
Lemma try_block_run (result : value) :
  try_block JSON_parse result init_locals =
  if truthy result && truthy (lookup result Key.success)
     && truthy (lookup result Key.response)
  then (normalised_locals JSON_parse result, Some None)
  else (init_locals,
        Some (Some (mkParsed (or_else (opt_prop result Key.error)
                                      (VStr MSG_CALL_FAILED)) [] None))).
Proof.
  unfold try_block.
  destruct (truthy result) eqn:Hres; [|reflexivity].
  pose proof (truthy_not_nullish _ Hres) as Hn.
  cbn [negb].
  unfold bind at 1. rewrite (prop_run _ _ _ Hn).
  destruct (truthy (lookup result Key.success)); [|reflexivity].
  cbn [negb].
  unfold bind at 1. rewrite (prop_run _ _ _ Hn).
  destruct (truthy (lookup result Key.response)) eqn:Hresp; [|reflexivity].
  simpl. now apply normalise_reply_run.
Qed.

Lemma parseAgentResponse_run (result : value) :
  parseAgentResponse JSON_parse result =
  if truthy result && truthy (lookup result Key.success)
     && truthy (lookup result Key.response)
  then of_locals (normalised_locals JSON_parse result)
  else mkParsed (or_else (opt_prop result Key.error) (VStr MSG_CALL_FAILED))
                [] None.
Proof.
  unfold parseAgentResponse. rewrite try_block_run.
  destruct (truthy result && truthy (lookup result Key.success)
            && truthy (lookup result Key.response)); reflexivity.
Qed.

Lemma candidate_run (result c : value) :
  candidate_of JSON_parse result = Some c ->
  parseAgentResponse JSON_parse result =
  of_locals
    (final_locals
       (raw_locals JSON_parse result
          (message_locals (lookup result Key.response) (candidate_locals c)))).
Proof.
  unfold candidate_of. rewrite parseAgentResponse_run.
  destruct (truthy result && truthy (lookup result Key.success)
            && truthy (lookup result Key.response)); [|discriminate].
  unfold normalised_locals, structured_locals.
  set (raw := lookup (lookup result Key.response) Key.result).
  destruct (truthy raw && typeof_object raw && negb (isArray raw)).
  - intros [= <-]. reflexivity.
  - destruct (is_string raw); [|discriminate].
    destruct (JSON_parse raw) as [parsed|]; [|discriminate].
    destruct (truthy parsed && typeof_object parsed); [|discriminate].
    intros [= <-]. reflexivity.
Qed.

Lemma candidate_text_found (c : value) (s : jsstring) :
  first_nonempty_string c TEXT_KEYS = Some s ->
  candidate_text c = VStr s /\ truthy (VStr s) = true.
Proof.
  intros H. unfold candidate_text. rewrite H. split; [reflexivity|].
  revert H. generalize TEXT_KEYS. induction l as [|k ks IH]; [discriminate|].
  simpl. destruct (lookup c k) as [| | | |[|ch t]| |]; try exact IH.
  intros [= <-]. reflexivity.
Qed.

Lemma text_found_run (result c : value) (s : jsstring) :
  candidate_of JSON_parse result = Some c ->
  first_nonempty_string c TEXT_KEYS = Some s ->
  parseAgentResponse JSON_parse result =
  mkParsed (VStr s) (candidate_products c) (candidate_comparison c).
Proof.
  intros Hc Hs. rewrite (candidate_run _ _ Hc).
  destruct (candidate_text_found _ _ Hs) as [Ht Htr].
  unfold message_locals, raw_locals, final_locals, candidate_locals.
  locals. rewrite Ht, Htr. locals. rewrite Htr. locals. rewrite Htr.
  reflexivity.
Qed.

Lemma keep_spec (p : value) :
  keep p = true <->
  exists fields s, p = VObj fields /\ assoc fields Key.name = VStr s.
Proof.
  unfold keep. split.
  - intros H. apply andb_prop in H. destruct H as [_ H].
    destruct p; simpl in H; try discriminate.
    destruct (assoc fields Key.name) eqn:E; try discriminate.
    now exists fields, s.
  - intros (fields & s & -> & E). simpl. rewrite E. reflexivity.
Qed.

Lemma filter_keep_Forall (items : list value) :
  Forall (fun p => keep p = true) (filter keep items).
Proof.
  apply Forall_forall. intros p Hp. apply filter_In in Hp. tauto.
Qed.

Lemma candidate_products_keep (c : value) :
  Forall (fun p => keep p = true) (candidate_products c).
Proof.
  unfold candidate_products.
  destruct (lookup c Key.products); try constructor.
  apply filter_keep_Forall.
Qed.

(** The fallback on [raw_response] either leaves the products or replaces an
    empty list by a filtered one. *)
Lemma fallback_products (result : value) (l : Locals) :
  Forall (fun p => keep p = true) (l_products l) ->
  Forall (fun p => keep p = true) (l_products (fallback_locals JSON_parse result l))
  /\ (l_products l <> [] ->
      l_products (fallback_locals JSON_parse result l) = l_products l).
Proof.
  intros Hl. unfold fallback_locals.
  assert (Hinner : forall inner,
    Forall (fun p => keep p = true) (l_products (inner_locals inner l))
    /\ (l_products l <> [] ->
        l_products (inner_locals inner l) = l_products l)).
  { intros inner. unfold inner_locals. locals.
    destruct (l_products l) as [|p ps] eqn:E.
    - split; [|intros H; now elim H].
      destruct (lookup inner Key.products); try constructor.
      apply filter_keep_Forall.
    - split; [|reflexivity]. destruct (lookup inner Key.products); exact Hl. }
  destruct (JSON_parse (lookup result Key.raw_response)) as [rawParsed|].
  - destruct (is_string rawParsed); [now split|].
    destruct (truthy (opt_prop rawParsed Key.response)
              && is_string (opt_prop rawParsed Key.response)); [now split|].
    destruct (truthy (opt_prop (opt_prop rawParsed Key.response) Key.result));
      [|now split].
    destruct (is_string _); [now split|].
    destruct (typeof_object _); [apply Hinner|now split].
  - destruct (lookup result Key.raw_response) as [| | | |[|ch s]| |];
      now split.
Qed.

Lemma message_locals_rest (response : value) (l : Locals) :
  l_products (message_locals response l) = l_products l
  /\ l_comparison (message_locals response l) = l_comparison l.
Proof.
  unfold message_locals. destruct (truthy (l_text l)); now split.
Qed.

Lemma final_locals_rest (l : Locals) :
  l_products (final_locals l) = l_products l
  /\ l_comparison (final_locals l) = l_comparison l.
Proof.
  unfold final_locals. destruct (truthy (l_text l)); now split.
Qed.

Lemma structured_products_keep (raw : value) :
  Forall (fun p => keep p = true) (l_products (structured_locals JSON_parse raw)).
Proof.
  unfold structured_locals.
  destruct (truthy raw && typeof_object raw && negb (isArray raw));
    [apply candidate_products_keep|].
  destruct (is_string raw); [|constructor].
  destruct (JSON_parse raw) as [parsed|]; [|constructor].
  destruct (truthy parsed && typeof_object parsed);
    [apply candidate_products_keep|constructor].
Qed.

Lemma products_all_kept (result : value) :
  Forall (fun p => keep p = true)
         (products (parseAgentResponse JSON_parse result)).
Proof.
  rewrite parseAgentResponse_run.
  destruct (truthy result && truthy (lookup result Key.success)
            && truthy (lookup result Key.response)); [|constructor].
  unfold normalised_locals, of_locals. cbn [products].
  rewrite (proj1 (final_locals_rest _)).
  unfold raw_locals.
  set (l2 := message_locals _ _).
  assert (H2 : Forall (fun p => keep p = true) (l_products l2)).
  { unfold l2. rewrite (proj1 (message_locals_rest _ _)).
    apply structured_products_keep. }
  destruct (truthy (l_text l2)); [exact H2|].
  destruct (truthy (lookup result Key.raw_response)); [|exact H2].
  now apply fallback_products.
Qed.

Lemma fallback_skipped_run (result c : value) :
  candidate_of JSON_parse result = Some c ->
  fallback_skipped result c ->
  products (parseAgentResponse JSON_parse result) = candidate_products c
  /\ comparison (parseAgentResponse JSON_parse result) = candidate_comparison c.
Proof.
  intros Hc Hskip. rewrite (candidate_run _ _ Hc).
  unfold of_locals. cbn [products comparison].
  rewrite (proj1 (final_locals_rest _)), (proj2 (final_locals_rest _)).
  set (l2 := message_locals _ _).
  assert (E : raw_locals JSON_parse result l2 = l2).
  { unfold raw_locals.
    destruct (truthy (l_text l2)) eqn:Ht; [reflexivity|].
    destruct Hskip as [Hs | [Hm | Hr]].
    - destruct (first_nonempty_string c TEXT_KEYS) as [s|] eqn:Es;
        [|now elim Hs].
      destruct (candidate_text_found _ _ Es) as [Hct Htr].
      unfold l2, message_locals, candidate_locals in Ht. revert Ht. locals.
      rewrite Hct, Htr. locals. rewrite Htr. discriminate.
    - unfold l2, message_locals in Ht.
      destruct (truthy (l_text (candidate_locals c))) eqn:Ht0;
        [rewrite Ht0 in Ht; discriminate|].
      revert Ht. locals. unfold or_else. rewrite Hm, Hm. discriminate.
    - rewrite Hr. reflexivity. }
  rewrite E. unfold l2.
  rewrite (proj1 (message_locals_rest _ _)), (proj2 (message_locals_rest _ _)).
  split; reflexivity.
Qed.

Lemma candidate_truthy (result c : value) :
  candidate_of JSON_parse result = Some c -> truthy result = true.
Proof.
  unfold candidate_of. destruct (truthy result); [reflexivity|discriminate].
Qed.

(** C4.  For a candidate object, the text [parseAgentResponse] returns is the
    first non-empty string among its fields [response], [text], [message],
    [answer], [content], in that order; in particular it is the [response]
    field when both [response] and [message] hold non-empty strings. *)
Theorem text_key_precedence (result c : value) :
  candidate_of JSON_parse result = Some c ->
  (forall s, first_nonempty_string c TEXT_KEYS = Some s ->
             text (parseAgentResponse JSON_parse result) = VStr s)
  /\ (forall r m, lookup c Key.response = VStr r -> r <> [] ->
                  lookup c Key.message = VStr m -> m <> [] ->
                  text (parseAgentResponse JSON_parse result) = VStr r).
Proof.
  intros Hc.
  assert (H1 : forall s, first_nonempty_string c TEXT_KEYS = Some s ->
                         text (parseAgentResponse JSON_parse result) = VStr s).
  { intros s Hs. rewrite (text_found_run _ _ _ Hc Hs). reflexivity. }
  split; [exact H1|].
  intros r m Hr Hne _ _. apply H1.
  unfold TEXT_KEYS. cbn [first_nonempty_string]. rewrite Hr.
  destruct r; [now elim Hne|reflexivity].
Qed.

(** C2, as the code has it.  Every entry of the products [parseAgentResponse]
    returns is an object whose [name] field is a string, possibly the
    empty one; when the candidate object's [products] is a list, the
    entries that fail this test are dropped one by one and the others are
    returned in their order, provided one of them passes or the fallback on
    [raw_response] is not reached. *)
Theorem products_filtered_by_name (result : value) :
  (forall p, In p (products (parseAgentResponse JSON_parse result)) ->
             exists fields s, p = VObj fields /\ assoc fields Key.name = VStr s)
  /\ (forall c items,
        candidate_of JSON_parse result = Some c ->
        lookup c Key.products = VArr items ->
        filter keep items <> [] \/ fallback_skipped result c ->
        products (parseAgentResponse JSON_parse result) = filter keep items).
Proof.
  split.
  - intros p Hp. apply keep_spec.
    pose proof (products_all_kept result) as H.
    rewrite Forall_forall in H. now apply H.
  - intros c items Hc Hitems [Hne | Hskip].
    + rewrite (candidate_run _ _ Hc). unfold of_locals. cbn [products].
      rewrite (proj1 (final_locals_rest _)).
      set (l2 := message_locals _ _).
      assert (E2 : l_products l2 = filter keep items).
      { unfold l2. rewrite (proj1 (message_locals_rest _ _)).
        unfold candidate_locals, candidate_products. locals.
        rewrite Hitems. reflexivity. }
      unfold raw_locals.
      destruct (truthy (l_text l2)); [exact E2|].
      destruct (truthy (lookup result Key.raw_response)); [|exact E2].
      rewrite <- E2.
      apply fallback_products.
      * rewrite E2. apply filter_keep_Forall.
      * rewrite E2. exact Hne.
    + rewrite (proj1 (fallback_skipped_run _ _ Hc Hskip)).
      unfold candidate_products. rewrite Hitems. reflexivity.
Qed.

Lemma no_text_key_locals (response c : value) :
  first_nonempty_string c TEXT_KEYS = None ->
  truthy (lookup response Key.message) = false ->
  message_locals response (candidate_locals c) = candidate_locals c
  /\ l_text (candidate_locals c) = VStr [].
Proof.
  intros Hs Hm. unfold message_locals, candidate_locals, candidate_text.
  rewrite Hs. locals. cbn [truthy List.length Nat.eqb negb].
  unfold or_else. rewrite Hm. split; reflexivity.
Qed.

(** C3, as the code has it.  [parseAgentResponse] never reaches its outer
    [catch]: the [try] block always runs to its end or to its [return].  For
    a candidate object none of whose text keys holds a non-empty string,
    with no top-level [message] and a [raw_response] that is absent or
    leaves no text, the text is the fixed fallback sentence; products and
    comparison are not emptied by this: without a [raw_response] they are
    the entries of the candidate's [products] that pass the name test and
    the candidate's [comparison] when it is accepted. *)
Theorem fallback_sentence_when_no_text (result : value) :
  (exists l r, try_block JSON_parse result init_locals = (l, Some r))
  /\ (forall c,
        candidate_of JSON_parse result = Some c ->
        first_nonempty_string c TEXT_KEYS = None ->
        truthy (lookup (lookup result Key.response) Key.message) = false ->
        truthy (lookup result Key.raw_response) = false
        \/ truthy (l_text (fst (raw_response_fallback JSON_parse result
                                  (candidate_locals c)))) = false ->
        text (parseAgentResponse JSON_parse result) = VStr MSG_UNFORMATTED
        /\ (truthy (lookup result Key.raw_response) = false ->
            products (parseAgentResponse JSON_parse result)
              = candidate_products c
            /\ comparison (parseAgentResponse JSON_parse result)
              = candidate_comparison c)).
Proof.
  split.
  - rewrite try_block_run.
    destruct (truthy result && truthy (lookup result Key.success)
              && truthy (lookup result Key.response)); eauto.
  - intros c Hc Hs Hm Hraw. split.
    + rewrite (candidate_run _ _ Hc).
      destruct (no_text_key_locals _ _ Hs Hm) as [E Et]. rewrite E.
      unfold raw_locals. rewrite Et. cbn [truthy List.length Nat.eqb negb].
      assert (Hfin : forall l, truthy (l_text l) = false ->
                text (of_locals (final_locals l)) = VStr MSG_UNFORMATTED).
      { intros l Hl. unfold final_locals. rewrite Hl. reflexivity. }
      destruct (truthy (lookup result Key.raw_response)) eqn:Hrr.
      * destruct Hraw as [Hraw | Hraw]; [discriminate Hraw|].
        rewrite raw_response_fallback_run in Hraw
          by (apply truthy_not_nullish; exact (candidate_truthy _ _ Hc)).
        apply Hfin. exact Hraw.
      * apply Hfin. rewrite Et. reflexivity.
    + intros Hrr. apply fallback_skipped_run; [exact Hc|].
      right. right. exact Hrr.
Qed.

Lemma comparison_rejected (x : value) :
  isArray x = true \/ isArray (opt_prop x Key.attributes) = false ->
  comparison_ok x = false.
Proof.
  unfold comparison_ok. intros [H | H]; rewrite H.
  - now rewrite !andb_false_r.
  - now rewrite andb_false_r.
Qed.

(** C5, as the code has it.  When the candidate object's [comparison] is a
    list, or has no list in its [attributes] field, the candidate gives no
    comparison; [parseAgentResponse] then returns [null] for it whenever the
    fallback on [raw_response] is not reached, that is when the candidate or
    the top-level [message] gave a text or there is no [raw_response]. *)
Theorem comparison_rejected_is_absent (result c : value) :
  candidate_of JSON_parse result = Some c ->
  isArray (lookup c Key.comparison) = true
  \/ isArray (opt_prop (lookup c Key.comparison) Key.attributes) = false ->
  candidate_comparison c = None
  /\ (fallback_skipped result c ->
      comparison (parseAgentResponse JSON_parse result) = None).
Proof.
  intros Hc Hrej.
  assert (E : candidate_comparison c = None).
  { unfold candidate_comparison. now rewrite (comparison_rejected _ Hrej). }
  split; [exact E|].
  intros Hskip. rewrite (proj2 (fallback_skipped_run _ _ Hc Hskip)). exact E.
Qed.

(** C10.  Some reply makes [parseAgentResponse] return a comparison that is
    not [null] and has no [products] field at all: the test of lines 189-192
    looks at [attributes] only and the object is returned as it came. *)
Theorem comparison_without_products :
  exists result cmp,
    comparison (parseAgentResponse JSON_parse result) = Some cmp
    /\ candidate_of JSON_parse result
       = Some (VObj [(Key.response, VStr (js "Compare"));
                     (Key.comparison, cmp)])
    /\ comparison_ok cmp = true
    /\ lookup cmp Key.products = VUndefined.
Proof.
  exists (agent_reply (VObj [(Key.response, VStr (js "Compare"));
                             (Key.comparison,
                              VObj [(Key.attributes, VArr [])])])).
  exists (VObj [(Key.attributes, VArr [])]).
  repeat split; reflexivity.
Qed.

End NormaliserFacts.

(** * Properties of the message flow *)

Lemma str_eqb_eq (a b : jsstring) : str_eqb a b = true <-> a = b.
Proof.
  revert b. induction a as [|x a IH]; intros [|y b]; simpl;
    try (split; [discriminate|discriminate]); [split; reflexivity|].
  rewrite andb_true_iff, N.eqb_eq, IH.
  split; [intros [-> ->]; reflexivity|intros [= -> ->]; split; reflexivity].
Qed.

Lemma str_eqb_refl (a : jsstring) : str_eqb a a = true.
Proof. now apply str_eqb_eq. Qed.

Lemma str_eqb_neq (a b : jsstring) : a <> b -> str_eqb a b = false.
Proof.
  intros H. destruct (str_eqb a b) eqn:E; [|reflexivity].
  apply str_eqb_eq in E. contradiction.
Qed.

(** ** [trim] *)

Lemma trimStart_blank (s : jsstring) :
  trimStart s = [] <-> forallb is_white_space s = true.
Proof.
  induction s as [|c s IH]; simpl; [tauto|].
  destruct (is_white_space c); simpl; [exact IH|].
  split; discriminate.
Qed.

Lemma trimStart_head (s : jsstring) (c : N) (t : jsstring) :
  trimStart s = c :: t -> is_white_space c = false.
Proof.
  induction s as [|x s IH]; simpl; [discriminate|].
  destruct (is_white_space x) eqn:E; [exact IH|].
  intros [= -> _]. exact E.
Qed.

Lemma forallb_rev (f : N -> bool) (s : jsstring) :
  forallb f (rev s) = forallb f s.
Proof.
  induction s as [|c s IH]; [reflexivity|].
  simpl. rewrite forallb_app, IH. simpl.
  now rewrite andb_true_r, andb_comm.
Qed.

(** [trim] leaves the empty string exactly on the strings made of white
    space and line terminators only. *)
Lemma trim_blank (s : jsstring) :
  trim s = [] <-> forallb is_white_space s = true.
Proof.
  unfold trim, trimEnd. split.
  - intros H.
    assert (H1 : trimStart (rev (trimStart s)) = []).
    { destruct (trimStart (rev (trimStart s))) as [|c t]; [reflexivity|].
      simpl in H. destruct (rev t); discriminate H. }
    apply trimStart_blank in H1. rewrite forallb_rev in H1.
    destruct (trimStart s) as [|c t] eqn:E; [now apply trimStart_blank|].
    apply trimStart_head in E. simpl in H1. rewrite E in H1. discriminate.
  - intros H. apply trimStart_blank in H. rewrite H. reflexivity.
Qed.

(** ** Updating one conversation *)

Lemma update_conversation_nth (cid : jsstring)
    (upd : Conversation.t -> Conversation.t) (l : list Conversation.t)
    (i : nat) (c : Conversation.t) :
  nth_error l i = Some c ->
  nth_error (update_conversation cid upd l) i
  = Some (if str_eqb (Conversation.id c) cid then upd c else c).
Proof.
  intros H. unfold update_conversation. rewrite nth_error_map, H. simpl.
  destruct (str_eqb (Conversation.id c) cid); reflexivity.
Qed.

Lemma update_conversation_length (cid : jsstring)
    (upd : Conversation.t -> Conversation.t) (l : list Conversation.t) :
  List.length (update_conversation cid upd l) = List.length l.
Proof. unfold update_conversation. apply length_map. Qed.

Lemma update_conversation_ok (cid : jsstring)
    (upd : Conversation.t -> Conversation.t) (l : list Conversation.t) :
  (forall c, conversation_ok c -> conversation_ok (upd c)) ->
  Forall conversation_ok l ->
  Forall conversation_ok (update_conversation cid upd l).
Proof.
  intros Hupd Hl. unfold update_conversation. apply Forall_map.
  eapply Forall_impl; [|exact Hl].
  intros c Hc. simpl.
  destruct (negb (str_eqb (Conversation.id c) cid)); auto.
Qed.

Lemma append_message_ok (m : Message.t) (now : jsstring) (c : Conversation.t) :
  message_ok m -> conversation_ok c -> conversation_ok (append_message m now c).
Proof.
  intros Hm Hc. unfold conversation_ok, append_message. simpl.
  apply Forall_app. split; [exact Hc|]. now constructor.
Qed.

Lemma add_user_message_ok (d : SendDraws) (t : jsstring) (c : Conversation.t) :
  conversation_ok c -> conversation_ok (add_user_message d t c).
Proof.
  intros Hc. unfold conversation_ok, add_user_message. simpl.
  apply Forall_app. split; [exact Hc|]. constructor; [|constructor].
  unfold message_ok. simpl. auto.
Qed.

Lemma drop_errors_ok (c : Conversation.t) :
  conversation_ok c -> conversation_ok (drop_errors c).
Proof.
  unfold conversation_ok, drop_errors. simpl. intros Hc.
  apply Forall_forall. intros m Hm. apply filter_In in Hm.
  rewrite Forall_forall in Hc. now apply Hc.
Qed.

Lemma errorMsg_ok (d : SettleDraws) : message_ok (errorMsg d).
Proof. unfold message_ok. simpl. auto. Qed.

Lemma assistantMsg_ok (d : SettleDraws) (p : Parsed) :
  message_ok (assistantMsg d p).
Proof. unfold message_ok. simpl. discriminate. Qed.

Ltac state_simpl :=
  unfold notify, setIsLoading, setInputValue, setConversations,
    setActiveConversationId;
  cbn [conversations activeConversationId isLoading inputValue observerCalls
       fst snd app inflight].

Lemma sendMessage_begin_ok (snap st : AppState) (d : SendDraws) (text : value) :
  state_ok st -> state_ok (fst (sendMessage_begin snap st d text)).
Proof.
  intros Hst. unfold sendMessage_begin.
  destruct text; try exact Hst.
  destruct (negb (truthy (VStr (trim s))) || isLoading snap); [exact Hst|].
  destruct (no_conversation (activeConversationId snap)); unfold state_ok;
    state_simpl.
  - apply update_conversation_ok; [apply add_user_message_ok|].
    constructor; [constructor|exact Hst].
  - apply update_conversation_ok; [apply add_user_message_ok|exact Hst].
Qed.

Section FlowFacts.

Variable JSON_parse : value -> option value.

Lemma reply_message_ok (o : GatewayOutcome) (d : SettleDraws) :
  message_ok (reply_message JSON_parse o d).
Proof.
  destruct o as [result|]; [|apply errorMsg_ok].
  destruct result; first [apply errorMsg_ok | apply assistantMsg_ok].
Qed.

Lemma sendMessage_settle_ok (p : Pending) (o : GatewayOutcome)
    (d : SettleDraws) (st : AppState) :
  state_ok st -> state_ok (sendMessage_settle JSON_parse p o d st).
Proof.
  intros Hst. unfold state_ok, sendMessage_settle. state_simpl.
  apply update_conversation_ok; [|exact Hst].
  intros c. apply append_message_ok, reply_message_ok.
Qed.

Lemma retryLastMessage_ok (st : AppState) (d : SendDraws) :
  state_ok st -> state_ok (fst (retryLastMessage st d)).
Proof.
  intros Hst. unfold retryLastMessage.
  destruct (activeConversation st) as [ac|]; [|exact Hst].
  destruct (Nat.ltb _ 2); [exact Hst|].
  destruct (find is_user _) as [u|]; [|exact Hst].
  apply sendMessage_begin_ok. unfold state_ok. state_simpl.
  apply Forall_map. eapply Forall_impl; [|exact Hst].
  intros c Hc. simpl.
  destruct (negb (id_is c (activeConversationId st)));
    [exact Hc|now apply drop_errors_ok].
Qed.

Lemma step_ok (s s' : System) :
  step JSON_parse s s' -> state_ok (app s) -> state_ok (app s').
Proof.
  intros Hstep Hs. destruct Hstep; cbn [app].
  - exact Hs.
  - unfold state_ok, createNewConversation. state_simpl.
    constructor; [constructor|exact Hs].
  - exact Hs.
  - now apply sendMessage_begin_ok.
  - now apply retryLastMessage_ok.
  - now apply sendMessage_settle_ok.
Qed.

Lemma reachable_ok (s : System) :
  reachable JSON_parse s -> state_ok (app s).
Proof.
  induction 1 as [|s s' _ IH Hstep]; [constructor|].
  exact (step_ok _ _ Hstep IH).
Qed.

(** C7.  In every state the page reaches from its initial state by typing,
    new conversations, selections, submissions, retries and the ends of
    gateway calls, a message of the user has no products, no comparison and
    no error flag, and an assistant message whose error flag is set has no
    products and no comparison. *)
Theorem reachable_messages_well_formed (s : System) (c : Conversation.t)
    (m : Message.t) :
  reachable JSON_parse s ->
  In c (conversations (app s)) ->
  In m (Conversation.messages c) ->
  (Message.role m = User ->
   Message.products m = None /\ Message.comparison m = None
   /\ Message.error m = None)
  /\ (Message.role m = Assistant -> Message.error m = Some true ->
      Message.products m = None /\ Message.comparison m = None).
Proof.
  intros Hr Hc Hm.
  pose proof (reachable_ok _ Hr) as Hok. unfold state_ok in Hok.
  rewrite Forall_forall in Hok. specialize (Hok c Hc).
  unfold conversation_ok in Hok. rewrite Forall_forall in Hok.
  specialize (Hok m Hm). unfold message_ok in Hok.
  destruct (Message.role m); split; intros Hrole; try discriminate Hrole;
    exact Hok.
Qed.

Lemma reply_message_role (o : GatewayOutcome) (d : SettleDraws) :
  Message.role (reply_message JSON_parse o d) = Assistant.
Proof. destruct o as [result|]; [destruct result|]; reflexivity. Qed.

Lemma reply_message_failed (o : GatewayOutcome) (d : SettleDraws) :
  takes_catch o = true -> reply_message JSON_parse o d = errorMsg d.
Proof.
  destruct o as [result|]; [|reflexivity].
  destruct result; simpl; intros H; first [reflexivity | discriminate H].
Qed.

Lemma sendMessage_settle_nth (p : Pending) (o : GatewayOutcome)
    (d : SettleDraws) (st : AppState) (i : nat) (c : Conversation.t) :
  nth_error (conversations st) i = Some c ->
  nth_error (conversations (sendMessage_settle JSON_parse p o d st)) i
  = Some (if str_eqb (Conversation.id c) (convId p)
          then append_message (reply_message JSON_parse o d)
                 (settle_updatedAt d) c
          else c).
Proof.
  intros H. unfold sendMessage_settle. state_simpl.
  now apply update_conversation_nth.
Qed.

(** C6.  When the gateway call fails, the continuation appends to each
    conversation that has the captured id one message, the assistant
    message flagged as an error that carries the fixed sentence: the
    conversation then has one message more than after the user message was
    appended. *)
Theorem failed_call_appends_one_error (p : Pending) (o : GatewayOutcome)
    (d : SettleDraws) (st : AppState) (i : nat) (c : Conversation.t) :
  takes_catch o = true ->
  nth_error (conversations st) i = Some c ->
  Conversation.id c = convId p ->
  exists c',
    nth_error (conversations (sendMessage_settle JSON_parse p o d st)) i
    = Some c'
    /\ Conversation.messages c' = Conversation.messages c ++ [errorMsg d]
    /\ List.length (Conversation.messages c')
       = S (List.length (Conversation.messages c))
    /\ Message.role (errorMsg d) = Assistant
    /\ Message.error (errorMsg d) = Some true
    /\ Message.content (errorMsg d) = VStr MSG_WENT_WRONG
    /\ Message.products (errorMsg d) = None
    /\ Message.comparison (errorMsg d) = None.
Proof.
  intros Ho Hc Hid.
  exists (append_message (errorMsg d) (settle_updatedAt d) c).
  split.
  - rewrite (sendMessage_settle_nth p o d st i c Hc).
    rewrite Hid, str_eqb_refl, (reply_message_failed o d Ho). reflexivity.
  - cbn [append_message Conversation.messages]. rewrite length_app.
    cbn [List.length]. repeat split; try reflexivity. lia.
Qed.

(** C8.  The continuation of a submission writes to the conversation whose
    id [sendMessage] took when it was called, the active one or the one it
    created: whatever the state is when the call ends, and whichever
    conversation is active then, the reply is appended to the conversations
    with that id, every other conversation is returned as it was, and the
    selection is not touched. *)
Theorem reply_goes_to_captured_conversation (st0 : AppState) (d : SendDraws)
    (text : value) (st1 : AppState) (p : Pending) :
  sendMessage st0 d text = (st1, Some p) ->
  (forall x, activeConversationId st0 = Some x -> x <> [] -> convId p = x)
  /\ (no_conversation (activeConversationId st0) = true ->
      convId p = send_convId d)
  /\ forall (st : AppState) (o : GatewayOutcome) (d' : SettleDraws),
       activeConversationId (sendMessage_settle JSON_parse p o d' st)
       = activeConversationId st
       /\ List.length (conversations (sendMessage_settle JSON_parse p o d' st))
          = List.length (conversations st)
       /\ forall i c,
            nth_error (conversations st) i = Some c ->
            (Conversation.id c <> convId p ->
             nth_error (conversations (sendMessage_settle JSON_parse p o d' st)) i
             = Some c)
            /\ (Conversation.id c = convId p ->
                nth_error
                  (conversations (sendMessage_settle JSON_parse p o d' st)) i
                = Some (append_message (reply_message JSON_parse o d')
                          (settle_updatedAt d') c)).
Proof.
  intros Hsend.
  assert (Hp : convId p =
               if no_conversation (activeConversationId st0)
               then send_convId d
               else match activeConversationId st0 with
                    | Some x => x
                    | None => []
                    end).
  { revert Hsend. unfold sendMessage, sendMessage_begin.
    destruct text; try discriminate.
    destruct (negb (truthy (VStr (trim s))) || isLoading st0); [discriminate|].
    destruct (no_conversation (activeConversationId st0));
      intros [= _ <-]; reflexivity. }
  split; [|split].
  - intros x Hx Hne. rewrite Hp, Hx.
    destruct x as [|ch x]; [now elim Hne|reflexivity].
  - intros Hno. rewrite Hp, Hno. reflexivity.
  - intros st o d'. split; [reflexivity|]. split.
    + unfold sendMessage_settle. state_simpl.
      apply update_conversation_length.
    + intros i c Hc. rewrite (sendMessage_settle_nth p o d' st i c Hc).
      split; intros Hid.
      * now rewrite (str_eqb_neq _ _ Hid).
      * now rewrite Hid, str_eqb_refl.
Qed.

Lemma user_count_app (l1 l2 : list Message.t) :
  user_count (l1 ++ l2) = user_count l1 + user_count l2.
Proof. unfold user_count. now rewrite filter_app, length_app. Qed.

Lemma user_count_drop_errors (ms : list Message.t) :
  Forall message_ok ms -> user_count (filter not_error ms) = user_count ms.
Proof.
  unfold user_count. induction 1 as [|m ms Hm _ IH]; [reflexivity|].
  unfold message_ok in Hm. cbn [filter]. unfold not_error at 1, is_user at 2.
  destruct (Message.role m) eqn:Hrole.
  - destruct Hm as (_ & _ & ->). cbn [filter]. unfold is_user at 1.
    rewrite Hrole. cbn [List.length]. now rewrite IH.
  - destruct (Message.error m) as [[|]|]; cbn [negb filter];
      try (unfold is_user at 1; rewrite Hrole); exact IH.
Qed.

(** C1, as the code has it.  Retrying on an idle page whose active
    conversation has at least two messages, the last of the user's holding
    a text that is not blank, drops every message flagged as an error from
    the conversation, appends a new user message with that text trimmed and
    calls the gateway; when the call ends, one assistant message, the reply
    or a new error, is appended.  The conversation then has one user message
    more than before the retry. *)
Theorem retry_resubmits_last_user_text (st : AppState) (d : SendDraws)
    (aid : jsstring) (ac : Conversation.t) (u : Message.t) (s : jsstring) :
  activeConversationId st = Some aid ->
  aid <> [] ->
  isLoading st = false ->
  activeConversation st = Some ac ->
  2 <= List.length (Conversation.messages ac) ->
  find is_user (rev (Conversation.messages ac)) = Some u ->
  Message.content u = VStr s ->
  trim s <> [] ->
  exists st1 p,
    retryLastMessage st d = (st1, Some p)
    /\ convId p = aid
    /\ forall o d' i c,
         nth_error (conversations st) i = Some c ->
         Conversation.id c = aid ->
         exists c',
           nth_error (conversations (sendMessage_settle JSON_parse p o d' st1)) i
           = Some c'
           /\ Conversation.messages c'
              = filter not_error (Conversation.messages c)
                ++ [userMsg d (trim s); reply_message JSON_parse o d']
           /\ Message.role (reply_message JSON_parse o d') = Assistant
           /\ (conversation_ok c ->
               user_count (Conversation.messages c')
               = S (user_count (Conversation.messages c))).
Proof.
  intros Haid Hne Hidle Hac Hlen Hfind Hcontent Htrim.
  unfold retryLastMessage. rewrite Hac.
  destruct (Nat.ltb_spec (List.length (Conversation.messages ac)) 2) as [Hlt|_];
    [lia|].
  rewrite Hfind, Hcontent. unfold sendMessage_begin.
  assert (Htr : truthy (VStr (trim s)) = true).
  { destruct (trim s); [now elim Htrim|reflexivity]. }
  rewrite Htr, Hidle, Haid. cbn [negb orb].
  assert (Hno : no_conversation (Some aid) = false).
  { destruct aid; [now elim Hne|reflexivity]. }
  rewrite Hno. eexists. eexists. split; [reflexivity|].
  split; [reflexivity|].
  intros o d' i c Hc Hid.
  eexists. split.
  - apply sendMessage_settle_nth. state_simpl.
    apply update_conversation_nth.
    rewrite nth_error_map, Hc. reflexivity.
  - rewrite <- Hid.
    repeat (rewrite ?str_eqb_refl;
            cbn [negb id_is drop_errors add_user_message append_message
                 Conversation.id Conversation.messages convId]).
    rewrite <- app_assoc. cbn [app].
    split; [reflexivity|]. split; [apply reply_message_role|].
    intros Hok. rewrite user_count_app, (user_count_drop_errors _ Hok).
    rewrite user_count_app.
    assert (Eu : user_count [userMsg d (trim s)] = 1) by reflexivity.
    assert (Er : user_count [reply_message JSON_parse o d'] = 0).
    { unfold user_count, is_user. cbn [filter].
      rewrite reply_message_role. reflexivity. }
    rewrite Eu, Er. lia.
Qed.

End FlowFacts.

(** C9.  Submitting a text made of white space only (the empty text is
    one), or any text while a call is in flight, changes nothing: the state
    is returned as it was and no gateway call is started. *)
Theorem blank_or_busy_submission_is_noop (st : AppState) (d : SendDraws)
    (s : jsstring) :
  forallb is_white_space s = true \/ isLoading st = true ->
  sendMessage st d (VStr s) = (st, None).
Proof.
  intros H. unfold sendMessage, sendMessage_begin.
  destruct H as [H | H].
  - apply trim_blank in H. rewrite H. reflexivity.
  - rewrite H, orb_true_r. reflexivity.
Qed.

(** * The claims on concrete replies and states *)

Module Witness.
Import Example.

Lemma text_key_precedence_holds :
  text (parseAgentResponse no_json (agent_reply both_keys))
  = VStr (js "Try HubSpot").
Proof.
  apply (proj2 (text_key_precedence no_json (agent_reply both_keys) both_keys
                  eq_refl)
           (js "Try HubSpot") (js "ok")).
  - reflexivity.
  - discriminate.
  - reflexivity.
  - discriminate.
Defined.

Lemma products_filtered_by_name_holds :
  products (parseAgentResponse no_json (agent_reply with_mixed_products))
  = [hubspot].
Proof.
  apply (proj2 (products_filtered_by_name no_json
                  (agent_reply with_mixed_products))
           with_mixed_products mixed_products).
  - reflexivity.
  - reflexivity.
  - left. discriminate.
Defined.

Lemma fallback_sentence_when_no_text_holds :
  text (parseAgentResponse no_json (agent_reply status_only))
  = VStr MSG_UNFORMATTED
  /\ (products (parseAgentResponse no_json (agent_reply status_only)) = []
      /\ comparison (parseAgentResponse no_json (agent_reply status_only))
         = None).
Proof.
  destruct (proj2 (fallback_sentence_when_no_text no_json
                     (agent_reply status_only))
              status_only eq_refl eq_refl eq_refl (or_introl eq_refl))
    as [Htext Hrest].
  split; [exact Htext|]. exact (Hrest eq_refl).
Defined.

Lemma comparison_rejected_is_absent_holds :
  comparison (parseAgentResponse no_json
                (agent_reply list_comparison_with_text)) = None.
Proof.
  apply (proj2 (comparison_rejected_is_absent no_json
                  (agent_reply list_comparison_with_text)
                  list_comparison_with_text eq_refl (or_introl eq_refl))).
  left. discriminate.
Defined.

Lemma blank_or_busy_submission_is_noop_holds :
  sendMessage initial_state first_send (VStr (js "   "))
  = (initial_state, None).
Proof.
  apply blank_or_busy_submission_is_noop. left. reflexivity.
Defined.

Lemma sending_state :
  sendMessage initial_state first_send (VStr (js "Find me a CRM"))
  = (sending, Some first_pending).
Proof. reflexivity. Qed.

Lemma failed_state :
  conversations failed = [failed_conversation].
Proof. reflexivity. Qed.

Lemma failed_call_appends_one_error_holds :
  exists c',
    nth_error (conversations failed) 0 = Some c'
    /\ Conversation.messages c'
       = [userMsg first_send (js "Find me a CRM")] ++ [errorMsg first_settle]
    /\ List.length (Conversation.messages c') = 2
    /\ Message.role (errorMsg first_settle) = Assistant
    /\ Message.error (errorMsg first_settle) = Some true
    /\ Message.content (errorMsg first_settle) = VStr MSG_WENT_WRONG
    /\ Message.products (errorMsg first_settle) = None
    /\ Message.comparison (errorMsg first_settle) = None.
Proof.
  apply (failed_call_appends_one_error no_json first_pending Rejected
           first_settle sending 0
           (Conversation.mk (js "c1") (js "s1") (js "Find me a CRM")
              [userMsg first_send (js "Find me a CRM")] stamp stamp)).
  - reflexivity.
  - reflexivity.
  - reflexivity.
Defined.

(** The reply of the first submission arrives after a new conversation was
    created and became the active one: it is appended to the first
    conversation, now the second of the list. *)
Lemma reply_goes_to_captured_conversation_holds :
  activeConversationId (createNewConversation other_conversation sending)
  = Some (js "c9")
  /\ nth_error
       (conversations
          (sendMessage_settle no_json first_pending
             (Resolved (agent_reply both_keys)) first_settle
             (createNewConversation other_conversation sending))) 1
     = Some (Conversation.mk (js "c1") (js "s1") (js "Find me a CRM")
               [userMsg first_send (js "Find me a CRM");
                assistantMsg first_settle
                  (mkParsed (VStr (js "Try HubSpot")) [] None)]
               stamp stamp)
  /\ nth_error
       (conversations
          (sendMessage_settle no_json first_pending
             (Resolved (agent_reply both_keys)) first_settle
             (createNewConversation other_conversation sending))) 0
     = nth_error
         (conversations (createNewConversation other_conversation sending)) 0.
Proof.
  pose proof (proj2 (proj2 (reply_goes_to_captured_conversation no_json
                              initial_state first_send
                              (VStr (js "Find me a CRM")) sending first_pending
                              sending_state))
                (createNewConversation other_conversation sending)
                (Resolved (agent_reply both_keys)) first_settle) as H.
  destruct H as (_ & _ & H).
  split; [reflexivity|]. split.
  - apply (proj2 (H 1 _ eq_refl)). reflexivity.
  - apply (proj1 (H 0 _ eq_refl)). discriminate.
Defined.

Lemma failed_reachable : reachable no_json (mkSystem failed []).
Proof.
  apply reach_step with (s := mkSystem sending [first_pending]).
  - apply reach_step with (s := mkSystem initial_state []).
    + apply reach_init.
    + exact (step_send no_json (mkSystem initial_state []) first_send
               (js "Find me a CRM")).
  - exact (step_settle no_json (mkSystem sending [first_pending])
             first_pending Rejected first_settle [] [] eq_refl).
Qed.

Lemma reachable_messages_well_formed_holds :
  (Message.role (errorMsg first_settle) = User ->
   Message.products (errorMsg first_settle) = None
   /\ Message.comparison (errorMsg first_settle) = None
   /\ Message.error (errorMsg first_settle) = None)
  /\ (Message.role (errorMsg first_settle) = Assistant ->
      Message.error (errorMsg first_settle) = Some true ->
      Message.products (errorMsg first_settle) = None
      /\ Message.comparison (errorMsg first_settle) = None).
Proof.
  apply (reachable_messages_well_formed no_json (mkSystem failed [])
           failed_conversation (errorMsg first_settle)).
  - exact failed_reachable.
  - left. reflexivity.
  - right. left. reflexivity.
Defined.

Lemma retry_resubmits_last_user_text_holds :
  exists st1 p,
    retryLastMessage failed second_send = (st1, Some p)
    /\ convId p = js "c1"
    /\ forall o d' i c,
         nth_error (conversations failed) i = Some c ->
         Conversation.id c = js "c1" ->
         exists c',
           nth_error (conversations (sendMessage_settle no_json p o d' st1)) i
           = Some c'
           /\ Conversation.messages c'
              = filter not_error (Conversation.messages c)
                ++ [userMsg second_send (trim (js "Find me a CRM"));
                    reply_message no_json o d']
           /\ Message.role (reply_message no_json o d') = Assistant
           /\ (conversation_ok c ->
               user_count (Conversation.messages c')
               = S (user_count (Conversation.messages c))).
Proof.
  apply (retry_resubmits_last_user_text no_json failed second_send
           (js "c1") failed_conversation
           (userMsg first_send (js "Find me a CRM")) (js "Find me a CRM")).
  - reflexivity.
  - discriminate.
  - reflexivity.
  - reflexivity.
  - simpl. lia.
  - reflexivity.
  - reflexivity.
  - discriminate.
Defined.

End Witness.

Module Counterexample.
Import Example.

(** C1: after a retry and the end of its gateway call the conversation has
    two user messages where it had one. *)
Lemma retry_adds_a_user_message :
  user_counts failed = [1]
  /\ map (fun c => map Message.error (Conversation.messages c))
         (conversations failed) = [[None; Some true]]
  /\ user_counts (retry_then_settle no_json failed second_send Rejected
                    second_settle) = [2]
  /\ user_counts (retry_then_settle no_json failed second_send
                    (Resolved (agent_reply both_keys)) second_settle) = [2].
Proof. repeat split; reflexivity. Qed.

(** C2: an entry whose [name] is the empty string is returned. *)
Lemma empty_name_is_kept :
  candidate_of no_json (agent_reply with_empty_name) = Some with_empty_name
  /\ products (parseAgentResponse no_json (agent_reply with_empty_name))
     = [VObj [(Key.name, VStr [])]].
Proof. split; reflexivity. Qed.

(** C3: a candidate with no text key and a well-formed product gets the
    fallback sentence together with that product. *)
Lemma fallback_sentence_with_products :
  candidate_of no_json (agent_reply products_only) = Some products_only
  /\ first_nonempty_string products_only TEXT_KEYS = None
  /\ text (parseAgentResponse no_json (agent_reply products_only))
     = VStr MSG_UNFORMATTED
  /\ products (parseAgentResponse no_json (agent_reply products_only))
     = [hubspot].
Proof. repeat split; reflexivity. Qed.

(** C5: the candidate's [comparison] is a list, and the comparison returned
    is the one of the object nested in [raw_response]. *)
Lemma comparison_from_raw_response :
  candidate_of raw_json reply_with_raw = Some list_comparison
  /\ isArray (lookup list_comparison Key.comparison) = true
  /\ comparison (parseAgentResponse raw_json reply_with_raw)
     = Some (VObj [(Key.attributes, VArr [])]).
Proof. repeat split; reflexivity. Qed.

End Counterexample.

(** * More on the normaliser *)

Section NormaliserMore.

Variable JSON_parse : value -> option value.

Lemma truthy_or_else (a b : value) :
  truthy b = true -> truthy (or_else a b) = true.
Proof. intros H. unfold or_else. destruct (truthy a) eqn:E; assumption. Qed.

Lemma truthy_final_text (l : Locals) : truthy (l_text (final_locals l)) = true.
Proof.
  unfold final_locals. destruct (truthy (l_text l)) eqn:E; [exact E|reflexivity].
Qed.

(** X1.  Whatever the reply, the text [parseAgentResponse] returns is
    truthy: it is never the empty string, [null] or [undefined]. *)
Theorem text_always_displayable (result : value) :
  truthy (text (parseAgentResponse JSON_parse result)) = true.
Proof.
  rewrite parseAgentResponse_run.
  destruct (truthy result && truthy (lookup result Key.success)
            && truthy (lookup result Key.response)).
  - apply truthy_final_text.
  - cbn [text]. apply truthy_or_else. reflexivity.
Qed.

(** X2.  A reply that is missing, or whose [success] or [response] field is
    falsy, gives the [error] field of the reply as text when that is
    truthy and the fixed sentence otherwise, with no products and no
    comparison. *)
Theorem failed_reply_gives_error_text (result : value) :
  truthy result = false
  \/ truthy (lookup result Key.success) = false
  \/ truthy (lookup result Key.response) = false ->
  parseAgentResponse JSON_parse result
  = mkParsed (if truthy (opt_prop result Key.error)
              then opt_prop result Key.error
              else VStr MSG_CALL_FAILED) [] None.
Proof.
  intros H. rewrite parseAgentResponse_run.
  assert (G : truthy result && truthy (lookup result Key.success)
              && truthy (lookup result Key.response) = false).
  { destruct H as [H | [H | H]]; rewrite H.
    - reflexivity.
    - now rewrite andb_false_r.
    - now rewrite andb_false_r. }
  rewrite G. reflexivity.
Qed.

Lemma call_succeeded_run (result : value) :
  call_succeeded result ->
  parseAgentResponse JSON_parse result
  = of_locals (normalised_locals JSON_parse result).
Proof.
  intros (H1 & H2 & H3). rewrite parseAgentResponse_run, H1, H2, H3.
  reflexivity.
Qed.

(** X3.  When the [result] field of a successful reply is a non-empty string
    that [JSON.parse] rejects, that string is the text as it stands, there
    are no products and no comparison, and neither the top-level [message]
    nor [raw_response] is looked at. *)
Theorem plain_text_result_verbatim (result : value) (s : jsstring) :
  call_succeeded result ->
  lookup (lookup result Key.response) Key.result = VStr s ->
  s <> [] ->
  JSON_parse (VStr s) = None ->
  parseAgentResponse JSON_parse result = mkParsed (VStr s) [] None.
Proof.
  intros Hok Hraw Hne Hparse. rewrite (call_succeeded_run _ Hok).
  destruct s as [|ch s]; [now elim Hne|].
  unfold normalised_locals, structured_locals. rewrite Hraw.
  cbn [truthy typeof_object isArray is_string andb negb List.length Nat.eqb].
  rewrite Hparse.
  unfold message_locals, raw_locals, final_locals, with_text, init_locals.
  cbn [l_text l_products l_comparison truthy negb List.length Nat.eqb].
  reflexivity.
Qed.

(** X4.  When the candidate object has no non-empty string under its text
    keys and the top-level [message] of the reply is truthy, the text is
    that message, [raw_response] is not looked at, and products and
    comparison are the candidate's. *)
Theorem top_level_message_is_fallback (result c : value) :
  candidate_of JSON_parse result = Some c ->
  first_nonempty_string c TEXT_KEYS = None ->
  truthy (lookup (lookup result Key.response) Key.message) = true ->
  parseAgentResponse JSON_parse result
  = mkParsed (lookup (lookup result Key.response) Key.message)
             (candidate_products c) (candidate_comparison c).
Proof.
  intros Hc Hs Hm.
  assert (Hskip : fallback_skipped result c) by (right; left; exact Hm).
  destruct (fallback_skipped_run JSON_parse result c Hc Hskip) as [Hp Hcmp].
  destruct (parseAgentResponse JSON_parse result) as [t ps cmp] eqn:E.
  cbn [products comparison] in Hp, Hcmp. subst ps cmp. f_equal.
  change t with (text (mkParsed t (candidate_products c) (candidate_comparison c))).
  rewrite <- E. rewrite (candidate_run JSON_parse result c Hc).
  unfold message_locals, candidate_locals, candidate_text. rewrite Hs.
  cbn [l_text truthy List.length Nat.eqb negb]. unfold with_text, or_else.
  rewrite Hm. cbn [l_text l_products l_comparison].
  unfold raw_locals. cbn [l_text]. rewrite Hm.
  unfold final_locals. cbn [l_text]. rewrite Hm. reflexivity.
Qed.

(** The locals when the fallback on [raw_response] starts, for a candidate
    with no text and a reply with no top-level [message]. *)
Lemma raw_fallback_run (result c : value) (rr : jsstring) :
  candidate_of JSON_parse result = Some c ->
  first_nonempty_string c TEXT_KEYS = None ->
  truthy (lookup (lookup result Key.response) Key.message) = false ->
  lookup result Key.raw_response = VStr rr ->
  rr <> [] ->
  parseAgentResponse JSON_parse result
  = of_locals (final_locals (fallback_locals JSON_parse result
                               (candidate_locals c))).
Proof.
  intros Hc Hs Hm Hrr Hne. rewrite (candidate_run JSON_parse result c Hc).
  destruct (no_text_key_locals _ _ Hs Hm) as [E Et]. rewrite E.
  unfold raw_locals. rewrite Et, Hrr.
  destruct rr; [now elim Hne|reflexivity].
Qed.

Lemma final_of_text (v : value) (l : Locals) :
  truthy v = true ->
  of_locals (final_locals (with_text v l))
  = mkParsed v (l_products l) (l_comparison l).
Proof.
  intros H. unfold final_locals, with_text. cbn [l_text]. rewrite H.
  reflexivity.
Qed.

(** X5.  When neither the candidate object nor the top-level [message] gave
    a text and [raw_response] is a non-empty string: if [JSON.parse] rejects
    it, it is the text as it stands; if it parses to a non-empty string,
    to an object whose [response] is a non-empty string, or to an object
    whose [response.result] is a non-empty string, that string is the
    text.  Products and comparison stay the candidate's in these cases. *)
Theorem raw_response_supplies_text (result c : value) (rr : jsstring) :
  candidate_of JSON_parse result = Some c ->
  first_nonempty_string c TEXT_KEYS = None ->
  truthy (lookup (lookup result Key.response) Key.message) = false ->
  lookup result Key.raw_response = VStr rr ->
  rr <> [] ->
  (JSON_parse (VStr rr) = None ->
   parseAgentResponse JSON_parse result
   = mkParsed (VStr rr) (candidate_products c) (candidate_comparison c))
  /\ (forall s, JSON_parse (VStr rr) = Some (VStr s) -> s <> [] ->
      parseAgentResponse JSON_parse result
      = mkParsed (VStr s) (candidate_products c) (candidate_comparison c))
  /\ (forall p s, JSON_parse (VStr rr) = Some p -> is_string p = false ->
      opt_prop p Key.response = VStr s -> s <> [] ->
      parseAgentResponse JSON_parse result
      = mkParsed (VStr s) (candidate_products c) (candidate_comparison c))
  /\ (forall p s, JSON_parse (VStr rr) = Some p -> is_string p = false ->
      is_string (opt_prop p Key.response) = false ->
      opt_prop (opt_prop p Key.response) Key.result = VStr s -> s <> [] ->
      parseAgentResponse JSON_parse result
      = mkParsed (VStr s) (candidate_products c) (candidate_comparison c)).
Proof.
  intros Hc Hs Hm Hrr Hne.
  rewrite (raw_fallback_run result c rr Hc Hs Hm Hrr Hne).
  unfold fallback_locals. rewrite Hrr.
  assert (Htr : forall s : jsstring, s <> [] -> truthy (VStr s) = true).
  { intros [|ch s] H; [now elim H|reflexivity]. }
  repeat split.
  - intros Hp. rewrite Hp. destruct rr as [|ch rr]; [now elim Hne|].
    apply (final_of_text (VStr (ch :: rr)) (candidate_locals c)). reflexivity.
  - intros s Hp Hs0. rewrite Hp. cbn [is_string].
    apply (final_of_text (VStr s) (candidate_locals c)). now apply Htr.
  - intros p s Hp Hnp Hr Hs0. rewrite Hp, Hnp, Hr. cbn [is_string].
    rewrite (Htr s Hs0). cbn [andb].
    apply (final_of_text (VStr s) (candidate_locals c)). now apply Htr.
  - intros p s Hp Hnp Hnr Hi Hs0. rewrite Hp, Hnp, Hnr, andb_false_r, Hi.
    rewrite (Htr s Hs0). cbn [is_string].
    apply (final_of_text (VStr s) (candidate_locals c)). now apply Htr.
Qed.

(** X6.  When the fallback on [raw_response] reaches an object under
    [response.result], the text is the first truthy value among its
    [response], [text] and [message] fields, of whatever type ([answer] and
    [content] are not probed), or the fixed sentence when there is none;
    the products are the candidate's unless it has none, in which case they
    are the entries of the nested [products] list that pass the name test;
    the comparison is the candidate's unless it has none, in which case it
    is the nested one when its [attributes] field is a list. *)
Theorem raw_response_nested_object (result c : value) (rr : jsstring)
    (p inner : value) :
  candidate_of JSON_parse result = Some c ->
  first_nonempty_string c TEXT_KEYS = None ->
  truthy (lookup (lookup result Key.response) Key.message) = false ->
  lookup result Key.raw_response = VStr rr ->
  rr <> [] ->
  JSON_parse (VStr rr) = Some p ->
  is_string p = false ->
  is_string (opt_prop p Key.response) = false ->
  opt_prop (opt_prop p Key.response) Key.result = inner ->
  truthy inner = true ->
  is_string inner = false ->
  typeof_object inner = true ->
  parseAgentResponse JSON_parse result
  = mkParsed
      (if truthy (inner_text inner) then inner_text inner
       else VStr MSG_UNFORMATTED)
      (match candidate_products c, lookup inner Key.products with
       | [], VArr items => filter keep items
       | ps, _ => ps
       end)
      (match candidate_comparison c with
       | Some x => Some x
       | None =>
           if inner_comparison_ok (lookup inner Key.comparison)
           then Some (lookup inner Key.comparison) else None
       end).
Proof.
  intros Hc Hs Hm Hrr Hne Hp Hnp Hnr Hi Hti Hsi Hoi.
  rewrite (raw_fallback_run result c rr Hc Hs Hm Hrr Hne).
  unfold fallback_locals. rewrite Hrr, Hp, Hnp, Hnr, andb_false_r, Hi.
  rewrite Hti, Hsi, Hoi.
  unfold final_locals, inner_locals, candidate_locals, of_locals, with_text.
  cbn [l_text l_products l_comparison].
  destruct (truthy (inner_text inner)); reflexivity.
Qed.

End NormaliserMore.
(** * More on the message flow *)

(** ** [trim] is idempotent *)

Lemma trimStart_split (s : jsstring) :
  exists w, s = w ++ trimStart s /\ forallb is_white_space w = true.
Proof.
  induction s as [|c s (w & Hw & Hall)]; [now exists []|].
  simpl. destruct (is_white_space c) eqn:E.
  - exists (c :: w). simpl. rewrite E, Hall. split; [now f_equal|reflexivity].
  - now exists [].
Qed.

Lemma trimStart_fixed (s : jsstring) :
  match s with
  | [] => True
  | c :: _ => is_white_space c = false
  end ->
  trimStart s = s.
Proof. destruct s as [|c s]; [reflexivity|]. simpl. now intros ->. Qed.

Lemma trimStart_clean (s : jsstring) :
  match trimStart s with
  | [] => True
  | c :: _ => is_white_space c = false
  end.
Proof.
  destruct (trimStart s) as [|c t] eqn:E; [exact I|].
  exact (trimStart_head s c t E).
Qed.

Lemma trimStart_idempotent (s : jsstring) :
  trimStart (trimStart s) = trimStart s.
Proof. apply trimStart_fixed, trimStart_clean. Qed.

Lemma trimEnd_clean_head (t : jsstring) :
  match t with
  | [] => True
  | c :: _ => is_white_space c = false
  end ->
  match trimEnd t with
  | [] => True
  | c :: _ => is_white_space c = false
  end.
Proof.
  intros Ht. unfold trimEnd.
  destruct (trimStart_split (rev t)) as (w & Hw & Hall).
  assert (E : t = rev (trimStart (rev t)) ++ rev w).
  { rewrite <- rev_app_distr, <- Hw. now rewrite rev_involutive. }
  destruct (rev (trimStart (rev t))) as [|c u] eqn:Eu; [exact I|].
  rewrite E in Ht. exact Ht.
Qed.

Lemma trim_idempotent (s : jsstring) : trim (trim s) = trim s.
Proof.
  unfold trim.
  assert (H : trimStart (trimEnd (trimStart s)) = trimEnd (trimStart s)).
  { apply trimStart_fixed, trimEnd_clean_head, trimStart_clean. }
  rewrite H. unfold trimEnd. rewrite rev_involutive, trimStart_idempotent.
  reflexivity.
Qed.

(** ** What a submission does *)

Lemma update_conversation_fresh (cid : jsstring)
    (upd : Conversation.t -> Conversation.t) (l : list Conversation.t) :
  (forall c, In c l -> Conversation.id c <> cid) ->
  update_conversation cid upd l = l.
Proof.
  intros H. unfold update_conversation.
  induction l as [|c l IH]; [reflexivity|].
  cbn [map]. rewrite (str_eqb_neq _ _ (H c (or_introl eq_refl))).
  cbn [negb]. f_equal. apply IH. intros c' Hc'. apply H. now right.
Qed.

Lemma nonblank_truthy (s : jsstring) : s <> [] -> truthy (VStr s) = true.
Proof. destruct s; [intros H; now elim H|reflexivity]. Qed.

Lemma firstn_short (n : nat) (s : jsstring) :
  List.length s <= n -> firstn n s = s.
Proof. apply firstn_all2. Qed.

Lemma first_submission_run (st : AppState) (d : SendDraws) (s : jsstring) :
  trim s <> [] ->
  isLoading st = false ->
  no_conversation (activeConversationId st) = true ->
  (forall c, In c (conversations st) -> Conversation.id c <> send_convId d) ->
  sendMessage st d (VStr s)
  = (mkState
       (Conversation.mk (send_convId d) (send_sessionId d)
          (slice0 50 (trim s)) [userMsg d (trim s)] (send_createdAt d)
          (send_userUpdatedAt d)
        :: conversations st)
       (Some (send_convId d)) true []
       (observerCalls st ++ [ObsSetProcessing true]),
     Some (mkPending (send_convId d) (send_sessionId d) (trim s))).
Proof.
  intros Htrim Hidle Hno Hfresh.
  unfold sendMessage, sendMessage_begin.
  rewrite (nonblank_truthy _ Htrim), Hidle, Hno. cbn [negb orb].
  f_equal. state_simpl.
  unfold update_conversation at 1. cbn [map Conversation.id].
  rewrite str_eqb_refl. cbn [negb].
  fold (update_conversation (send_convId d)
          (add_user_message d (trim s)) (conversations st)).
  rewrite (update_conversation_fresh _ _ _ Hfresh). reflexivity.
Qed.

(** X7.  A non-blank text submitted on an idle page with no active
    conversation creates a conversation in front of the list, makes it
    active, titles it with the first 50 code units of the trimmed text (the
    whole of it when it is no longer), puts the user message in it, empties
    the input, sets the loading flag, tells the observer and calls the
    gateway for that conversation and its own session id; the other
    conversations are left as they were, no id among them being the new
    one. *)
Theorem first_submission_creates_conversation (st : AppState) (d : SendDraws)
    (s : jsstring) :
  trim s <> [] ->
  isLoading st = false ->
  no_conversation (activeConversationId st) = true ->
  (forall c, In c (conversations st) -> Conversation.id c <> send_convId d) ->
  sendMessage st d (VStr s)
  = (mkState
       (Conversation.mk (send_convId d) (send_sessionId d)
          (slice0 50 (trim s)) [userMsg d (trim s)] (send_createdAt d)
          (send_userUpdatedAt d)
        :: conversations st)
       (Some (send_convId d)) true []
       (observerCalls st ++ [ObsSetProcessing true]),
     Some (mkPending (send_convId d) (send_sessionId d) (trim s)))
  /\ List.length (slice0 50 (trim s)) <= 50
  /\ (List.length (trim s) <= 50 -> slice0 50 (trim s) = trim s).
Proof.
  intros Htrim Hidle Hno Hfresh. split; [|split].
  - exact (first_submission_run st d s Htrim Hidle Hno Hfresh).
  - unfold slice0. apply firstn_le_length.
  - unfold slice0. apply firstn_short.
Qed.

Section FlowMore.

Variable JSON_parse : value -> option value.

Lemma reply_message_resolved (result : value) (d : SettleDraws) :
  result <> VUndefined ->
  reply_message JSON_parse (Resolved result) d
  = assistantMsg d (parseAgentResponse JSON_parse result).
Proof. destruct result; intros H; [now elim H|reflexivity..]. Qed.

(** X8.  A whole turn on an idle page with no active conversation: after the
    submission of a non-blank text and a gateway reply that is not
    [undefined], the new conversation holds the user message followed by
    one assistant message with the normalised text, the products when there
    are some, the comparison when there is one and no error flag; the
    loading flag is down again, the observer was told to start and to stop,
    and the other conversations are as they were. *)
Theorem first_turn_appends_reply (st : AppState) (d : SendDraws)
    (s : jsstring) (result : value) (d' : SettleDraws) :
  trim s <> [] ->
  isLoading st = false ->
  no_conversation (activeConversationId st) = true ->
  (forall c, In c (conversations st) -> Conversation.id c <> send_convId d) ->
  result <> VUndefined ->
  exists st1 p,
    sendMessage st d (VStr s) = (st1, Some p)
    /\ sendMessage_settle JSON_parse p (Resolved result) d' st1
       = mkState
           (Conversation.mk (send_convId d) (send_sessionId d)
              (slice0 50 (trim s))
              [userMsg d (trim s);
               Message.mk (settle_msgId d') Assistant
                 (text (parseAgentResponse JSON_parse result))
                 (match products (parseAgentResponse JSON_parse result) with
                  | [] => None
                  | ps => Some ps
                  end)
                 (comparison (parseAgentResponse JSON_parse result))
                 (settle_timestamp d') None]
              (send_createdAt d) (settle_updatedAt d')
            :: conversations st)
           (Some (send_convId d)) false []
           (observerCalls st ++ [ObsSetProcessing true; ObsSetProcessing false]).
Proof.
  intros Htrim Hidle Hno Hfresh Hres.
  pose proof (first_submission_run st d s Htrim Hidle Hno Hfresh) as Hsend.
  eexists. eexists. split; [exact Hsend|].
  unfold sendMessage_settle. state_simpl. cbn [convId].
  unfold update_conversation at 1. cbn [map Conversation.id].
  rewrite str_eqb_refl. cbn [negb].
  fold (update_conversation (send_convId d)
          (append_message (reply_message JSON_parse (Resolved result) d')
             (settle_updatedAt d')) (conversations st)).
  rewrite (update_conversation_fresh _ _ _ Hfresh).
  rewrite (reply_message_resolved result d' Hres).
  unfold append_message, assistantMsg.
  cbn [Conversation.id Conversation.sessionId Conversation.title
       Conversation.messages Conversation.createdAt app].
  rewrite <- app_assoc. cbn [app].
  destruct (products (parseAgentResponse JSON_parse result)); reflexivity.
Qed.

(** X9.  A non-blank text submitted on an idle page whose active id is a
    non-empty string appends the user message to the conversations with that
    id and to no other, creates no conversation and keeps the selection.
    The title of a conversation that gets the message is replaced by the
    first 50 code units of the trimmed text when the conversation was
    empty, and kept otherwise. *)
Theorem submission_targets_active_conversation (st : AppState) (d : SendDraws)
    (s x : jsstring) :
  trim s <> [] ->
  isLoading st = false ->
  activeConversationId st = Some x ->
  x <> [] ->
  exists st1 p,
    sendMessage st d (VStr s) = (st1, Some p)
    /\ convId p = x
    /\ activeConversationId st1 = Some x
    /\ List.length (conversations st1) = List.length (conversations st)
    /\ forall i c,
         nth_error (conversations st) i = Some c ->
         (Conversation.id c <> x -> nth_error (conversations st1) i = Some c)
         /\ (Conversation.id c = x ->
             exists c',
               nth_error (conversations st1) i = Some c'
               /\ Conversation.messages c'
                  = Conversation.messages c ++ [userMsg d (trim s)]
               /\ (Conversation.messages c = [] ->
                   Conversation.title c' = slice0 50 (trim s))
               /\ (Conversation.messages c <> [] ->
                   Conversation.title c' = Conversation.title c)).
Proof.
  intros Htrim Hidle Hact Hx.
  unfold sendMessage, sendMessage_begin.
  rewrite (nonblank_truthy _ Htrim), Hidle, Hact. cbn [negb orb].
  assert (Hno : no_conversation (Some x) = false).
  { destruct x; [now elim Hx|reflexivity]. }
  rewrite Hno. eexists. eexists. split; [reflexivity|].
  state_simpl. cbn [convId].
  split; [reflexivity|]. split; [exact Hact|].
  split; [apply update_conversation_length|].
  intros i c Hc. rewrite (update_conversation_nth x _ _ i c Hc).
  split; intros Hid.
  - now rewrite (str_eqb_neq _ _ Hid).
  - rewrite Hid, str_eqb_refl. eexists. split; [reflexivity|].
    cbn [add_user_message Conversation.messages Conversation.title].
    split; [reflexivity|]. split.
    + intros ->. reflexivity.
    + intros Hne. destruct (Conversation.messages c); [now elim Hne|reflexivity].
Qed.

(** ** The active id stays valid *)

Lemma active_valid_map (g : Conversation.t -> Conversation.t) (st : AppState) :
  (forall c, Conversation.id (g c) = Conversation.id c) ->
  active_valid st -> active_valid (setConversations (map g) st).
Proof.
  intros Hg. unfold active_valid. state_simpl.
  destruct (activeConversationId st) as [x|]; [|trivial].
  intros (c & Hc & Hid). exists (g c). split.
  - now apply in_map.
  - now rewrite Hg.
Qed.

Lemma update_keeps_id (cid : jsstring) (upd : Conversation.t -> Conversation.t)
    (c : Conversation.t) :
  (forall c0, Conversation.id (upd c0) = Conversation.id c0) ->
  Conversation.id
    (if negb (str_eqb (Conversation.id c) cid) then c else upd c)
  = Conversation.id c.
Proof.
  intros H. destruct (negb (str_eqb (Conversation.id c) cid)); [reflexivity|].
  apply H.
Qed.

Lemma active_valid_flags (st st' : AppState) :
  conversations st' = conversations st ->
  activeConversationId st' = activeConversationId st ->
  active_valid st -> active_valid st'.
Proof. unfold active_valid. intros -> ->. trivial. Qed.

Lemma active_valid_head (c : Conversation.t) (l : list Conversation.t)
    (st : AppState) :
  active_valid
    (setActiveConversationId (Some (Conversation.id c))
       (setConversations (fun _ => c :: l) st)).
Proof.
  unfold active_valid. state_simpl. exists c. split; [now left|reflexivity].
Qed.

Lemma sendMessage_begin_valid (snap st : AppState) (d : SendDraws)
    (text : value) :
  active_valid st -> active_valid (fst (sendMessage_begin snap st d text)).
Proof.
  intros Hst. unfold sendMessage_begin.
  destruct text; try exact Hst.
  destruct (negb (truthy (VStr (trim s))) || isLoading snap); [exact Hst|].
  destruct (no_conversation (activeConversationId snap)); cbn [fst].
  - unfold active_valid. state_simpl.
    eexists. split.
    + unfold update_conversation. cbn [map]. left. reflexivity.
    + apply update_keeps_id. reflexivity.
  - apply (active_valid_flags
             (setConversations
                (update_conversation
                   match activeConversationId snap with
                   | Some x => x
                   | None => []
                   end (add_user_message d (trim s))) st));
      [reflexivity|reflexivity|].
    apply active_valid_map; [|exact Hst].
    intros c. apply update_keeps_id. reflexivity.
Qed.

Lemma step_valid (s s' : System) :
  step JSON_parse s s' -> active_valid (app s) -> active_valid (app s').
Proof.
  intros Hstep Hs. destruct Hstep; cbn [app].
  - exact Hs.
  - unfold createNewConversation, active_valid. state_simpl.
    eexists. split; [left; reflexivity|reflexivity].
  - unfold selectConversation, active_valid. state_simpl.
    exists c. split; [assumption|reflexivity].
  - now apply sendMessage_begin_valid.
  - unfold retryLastMessage.
    destruct (activeConversation (app s)) as [ac|]; [|exact Hs].
    destruct (Nat.ltb _ 2); [exact Hs|].
    destruct (find is_user _) as [u|]; [|exact Hs].
    apply sendMessage_begin_valid.
    apply active_valid_map; [|exact Hs].
    intros c. destruct (negb (id_is c (activeConversationId (app s))));
      reflexivity.
  - unfold sendMessage_settle.
    apply (active_valid_flags
             (setConversations
                (update_conversation (convId p)
                   (append_message (reply_message JSON_parse o d)
                      (settle_updatedAt d))) (app s)));
      [reflexivity|reflexivity|].
    apply active_valid_map; [|exact Hs].
    intros c. apply update_keeps_id. reflexivity.
Qed.

(** X10.  In every state the page reaches, by the events of the message
    flow, by loading the stored conversations and by switching the sample
    data on or off, the active id is [null] or the id of a conversation of
    the list. *)
Theorem active_id_always_valid (s : System) :
  page_reachable JSON_parse s ->
  match activeConversationId (app s) with
  | None => True
  | Some x =>
      exists c, In c (conversations (app s)) /\ Conversation.id c = x
  end.
Proof.
  intros Hr. change (active_valid (app s)).
  induction Hr as [|s s' _ IH Hstep]; [exact I|].
  destruct Hstep as [s s' Hflow | s r | s on t1 t2 t3 t4 r]; cbn [app].
  - exact (step_valid s s' Hflow IH).
  - unfold loadStored. destruct r as [| | |[|c rest]]; try exact IH.
    apply active_valid_head.
  - unfold sampleDataEffect. destruct on.
    + apply active_valid_head.
    + destruct r as [| | |[|c rest]];
        first [apply active_valid_head | exact I].
Qed.

(** ** One call in flight *)

Lemma last_processing_app (calls : list ObserverCall) (c : ObserverCall) :
  last_processing (calls ++ [c])
  = match c with
    | ObsSetProcessing b => Some b
    | ObsReset => last_processing calls
    end.
Proof.
  unfold last_processing. rewrite fold_left_app. cbn [fold_left].
  destruct c; reflexivity.
Qed.

Lemma flight_ok_same (s : System) (st' : AppState) :
  isLoading st' = isLoading (app s) ->
  last_processing (observerCalls st') = last_processing (observerCalls (app s)) ->
  flight_ok s -> flight_ok (mkSystem st' (inflight s)).
Proof.
  unfold flight_ok. cbn [app inflight]. intros -> ->. trivial.
Qed.

Lemma sendMessage_begin_flight (snap st : AppState) (d : SendDraws)
    (text : value) :
  (snd (sendMessage_begin snap st d text) = None
   /\ isLoading (fst (sendMessage_begin snap st d text)) = isLoading st
   /\ observerCalls (fst (sendMessage_begin snap st d text)) = observerCalls st)
  \/ (exists p, snd (sendMessage_begin snap st d text) = Some p
      /\ isLoading snap = false
      /\ isLoading (fst (sendMessage_begin snap st d text)) = true
      /\ observerCalls (fst (sendMessage_begin snap st d text))
         = observerCalls st ++ [ObsSetProcessing true]).
Proof.
  unfold sendMessage_begin.
  destruct text; try (left; repeat split; reflexivity).
  destruct (negb (truthy (VStr (trim s)))); cbn [orb];
    [left; repeat split; reflexivity|].
  destruct (isLoading snap) eqn:E; [left; repeat split; reflexivity|].
  right. destruct (no_conversation (activeConversationId snap));
    eexists; repeat split; reflexivity.
Qed.

Lemma begin_flight_ok (s : System) (st2 : AppState) (d : SendDraws)
    (text : value) :
  isLoading st2 = isLoading (app s) ->
  observerCalls st2 = observerCalls (app s) ->
  flight_ok s ->
  flight_ok
    (mkSystem (fst (sendMessage_begin (app s) st2 d text))
       (started (snd (sendMessage_begin (app s) st2 d text)) ++ inflight s)).
Proof.
  intros Hl Hc Hs.
  destruct (sendMessage_begin_flight (app s) st2 d text)
    as [(Hn & Hl' & Hc') | (p & Hp & Hidle & Hl' & Hc')].
  - rewrite Hn. cbn [started app]. apply flight_ok_same; [|  |exact Hs].
    + now rewrite Hl'.
    + now rewrite Hc', Hc.
  - rewrite Hp. cbn [started]. destruct Hs as [[(Ht & _) | (_ & Hin)] _].
    + rewrite Hidle in Ht. discriminate Ht.
    + unfold flight_ok. cbn [app inflight]. rewrite Hl', Hc', Hin.
      rewrite last_processing_app. split; [|reflexivity].
      left. split; [reflexivity|]. now exists p.
Qed.

Lemma step_flight (s s' : System) :
  step JSON_parse s s' -> flight_ok s -> flight_ok s'.
Proof.
  intros Hstep Hs. destruct Hstep.
  - apply flight_ok_same; [reflexivity|reflexivity|exact Hs].
  - apply flight_ok_same; [reflexivity| |exact Hs].
    unfold createNewConversation. state_simpl. apply last_processing_app.
  - apply flight_ok_same; [reflexivity| |exact Hs].
    unfold selectConversation. state_simpl. apply last_processing_app.
  - apply begin_flight_ok; [reflexivity|reflexivity|exact Hs].
  - unfold retryLastMessage.
    destruct (activeConversation (app s)) as [ac|];
      [|apply flight_ok_same; [reflexivity|reflexivity|exact Hs]].
    destruct (Nat.ltb _ 2);
      [apply flight_ok_same; [reflexivity|reflexivity|exact Hs]|].
    destruct (find is_user _) as [u|];
      [|apply flight_ok_same; [reflexivity|reflexivity|exact Hs]].
    apply begin_flight_ok; [reflexivity|reflexivity|exact Hs].
  - destruct Hs as [[(_ & q & Hq) | (_ & Hin)] _].
    + rewrite Hq in H.
      assert (E : before = [] /\ after = []).
      { destruct before as [|b before].
        - injection H as _ <-. now split.
        - destruct before; discriminate H. }
      destruct E as [-> ->].
      unfold flight_ok, sendMessage_settle. state_simpl.
      rewrite last_processing_app. split; [|reflexivity].
      right. split; reflexivity.
    + rewrite Hin in H. destruct before; discriminate H.
Qed.

(** X11.  In every state the page reaches, at most one gateway call is in
    flight, the loading flag is set exactly when one is, and the last
    [setProcessing] call made on the observer, when there was one, carried
    the value of the loading flag. *)
Theorem one_call_in_flight (s : System) :
  page_reachable JSON_parse s ->
  ((isLoading (app s) = true /\ exists p, inflight s = [p])
   \/ (isLoading (app s) = false /\ inflight s = []))
  /\ match last_processing (observerCalls (app s)) with
     | Some b => b = isLoading (app s)
     | None => isLoading (app s) = false
     end.
Proof.
  intros Hr. change (flight_ok s).
  induction Hr as [|s s' _ IH Hstep].
  - split; [right; split; reflexivity|reflexivity].
  - destruct Hstep as [s s' Hflow | s r | s on t1 t2 t3 t4 r].
    + exact (step_flight s s' Hflow IH).
    + apply flight_ok_same; [|  |exact IH];
        unfold loadStored; destruct r as [| | |[|c rest]]; reflexivity.
    + apply flight_ok_same; [|  |exact IH];
        unfold sampleDataEffect; destruct on;
        try destruct r as [| | |stored]; reflexivity.
Qed.

(** ** Nothing but errors is ever removed *)

Lemma filter_not_error_twice (ms : list Message.t) :
  filter not_error (filter not_error ms) = filter not_error ms.
Proof.
  induction ms as [|m ms IH]; [reflexivity|].
  cbn [filter]. destruct (not_error m) eqn:E; [|exact IH].
  cbn [filter]. rewrite E. now f_equal.
Qed.

Lemma continues_refl (c : Conversation.t) : continues c c.
Proof.
  repeat split. exists []. now rewrite app_nil_r.
Qed.

Lemma continues_trans (a b c : Conversation.t) :
  continues a b -> continues b c -> continues a c.
Proof.
  intros (Hi & Hs & Hc & l1 & H1) (Hi' & Hs' & Hc' & l2 & H2).
  repeat split; try congruence.
  exists (l1 ++ l2). rewrite H2, H1. now rewrite app_assoc.
Qed.

Lemma continues_append (m : Message.t) (now : jsstring) (c : Conversation.t) :
  continues c (append_message m now c).
Proof.
  repeat split. exists (filter not_error [m]).
  cbn [append_message Conversation.messages]. apply filter_app.
Qed.

Lemma continues_add_user (d : SendDraws) (t : jsstring) (c : Conversation.t) :
  continues c (add_user_message d t c).
Proof.
  repeat split. exists (filter not_error [userMsg d t]).
  cbn [add_user_message Conversation.messages]. apply filter_app.
Qed.

Lemma continues_drop (c : Conversation.t) : continues c (drop_errors c).
Proof.
  repeat split. exists [].
  cbn [drop_errors Conversation.messages].
  now rewrite filter_not_error_twice, app_nil_r.
Qed.

Lemma history_kept_refl (l : list Conversation.t) : history_kept 0 l l.
Proof.
  split; [reflexivity|]. intros i c Hc. exists c. split; [exact Hc|].
  apply continues_refl.
Qed.

Lemma history_kept_map (g : Conversation.t -> Conversation.t)
    (l : list Conversation.t) :
  (forall c, continues c (g c)) -> history_kept 0 l (map g l).
Proof.
  intros Hg. split; [apply length_map|].
  intros i c Hc. exists (g c). split; [|apply Hg].
  cbn [Nat.add]. now rewrite nth_error_map, Hc.
Qed.

Lemma history_kept_trans (k1 k2 : nat) (l1 l2 l3 : list Conversation.t) :
  history_kept k1 l1 l2 -> history_kept k2 l2 l3 ->
  history_kept (k2 + k1) l1 l3.
Proof.
  intros [Hlen1 H1] [Hlen2 H2]. split; [lia|].
  intros i c Hc. destruct (H1 i c Hc) as (c2 & Hc2 & Hcont).
  destruct (H2 (k1 + i) c2 Hc2) as (c3 & Hc3 & Hcont').
  exists c3. split.
  - now rewrite <- Nat.add_assoc.
  - exact (continues_trans _ _ _ Hcont Hcont').
Qed.

Lemma history_kept_cons (c0 : Conversation.t) (l : list Conversation.t) :
  history_kept 1 l (c0 :: l).
Proof.
  split; [reflexivity|]. intros i c Hc. exists c. split; [exact Hc|].
  apply continues_refl.
Qed.

Lemma continues_update (cid : jsstring) (upd : Conversation.t -> Conversation.t)
    (c : Conversation.t) :
  (forall c0, continues c0 (upd c0)) ->
  continues c (if negb (str_eqb (Conversation.id c) cid) then c else upd c).
Proof.
  intros H. destruct (negb (str_eqb (Conversation.id c) cid));
    [apply continues_refl|apply H].
Qed.

Lemma sendMessage_begin_history (snap st : AppState) (d : SendDraws)
    (text : value) :
  exists k, k <= 1
    /\ history_kept k (conversations st)
         (conversations (fst (sendMessage_begin snap st d text))).
Proof.
  unfold sendMessage_begin.
  destruct text; try (exists 0; split; [lia|apply history_kept_refl]).
  destruct (negb (truthy (VStr (trim s))) || isLoading snap);
    [exists 0; split; [lia|apply history_kept_refl]|].
  destruct (no_conversation (activeConversationId snap)); cbn [fst];
    state_simpl.
  - exists 1. split; [lia|].
    eapply (history_kept_trans 1 0); [apply history_kept_cons|].
    unfold update_conversation. apply history_kept_map. intros c.
    apply continues_update, continues_add_user.
  - exists 0. split; [lia|].
    apply history_kept_map. intros c.
    apply continues_update, continues_add_user.
Qed.

(** X12.  No event of the message flow deletes or reorders conversations or
    loses a message that is no error: after the event the list holds the
    conversations it held, in their order, behind at most one new
    conversation, each with its id, session id and creation time, and with
    its messages that are no errors still in front, in their order. *)
Theorem step_keeps_history (s s' : System) :
  step JSON_parse s s' ->
  exists k, k <= 1
    /\ List.length (conversations (app s'))
       = k + List.length (conversations (app s))
    /\ forall i c,
         nth_error (conversations (app s)) i = Some c ->
         exists c',
           nth_error (conversations (app s')) (k + i) = Some c'
           /\ Conversation.id c' = Conversation.id c
           /\ Conversation.sessionId c' = Conversation.sessionId c
           /\ Conversation.createdAt c' = Conversation.createdAt c
           /\ exists later,
                filter not_error (Conversation.messages c')
                = filter not_error (Conversation.messages c) ++ later.
Proof.
  intros Hstep.
  assert (H : exists k, k <= 1
                /\ history_kept k (conversations (app s))
                     (conversations (app s'))).
  { destruct Hstep; cbn [app].
    - exists 0. split; [lia|apply history_kept_refl].
    - exists 1. split; [lia|].
      unfold createNewConversation. state_simpl. apply history_kept_cons.
    - exists 0. split; [lia|apply history_kept_refl].
    - apply sendMessage_begin_history.
    - unfold retryLastMessage.
      destruct (activeConversation (app s)) as [ac|];
        [|exists 0; split; [lia|apply history_kept_refl]].
      destruct (Nat.ltb _ 2);
        [exists 0; split; [lia|apply history_kept_refl]|].
      destruct (find is_user _) as [u|];
        [|exists 0; split; [lia|apply history_kept_refl]].
      match goal with
      | |- context [sendMessage_begin ?snap ?st2 ?d ?t] =>
          destruct (sendMessage_begin_history snap st2 d t) as (k & Hk & Hh)
      end.
      exists k. split; [exact Hk|].
      rewrite <- (Nat.add_0_r k).
      refine (history_kept_trans 0 k _ _ _ _ Hh).
      state_simpl. apply history_kept_map. intros c.
      destruct (negb (id_is c (activeConversationId (app s))));
        [apply continues_refl|apply continues_drop].
    - exists 0. split; [lia|].
      unfold sendMessage_settle. state_simpl.
      apply history_kept_map. intros c.
      apply continues_update. intros c0. apply continues_append. }
  destruct H as (k & Hk & Hlen & Hall).
  exists k. split; [exact Hk|]. split; [exact Hlen|].
  intros i c Hc. destruct (Hall i c Hc) as (c' & Hc' & Hid & Hs & Hcr & Hl).
  exists c'. repeat split; assumption.
Qed.

(** ** What the messages of the user hold *)

Lemma update_conversation_Forall (P : Conversation.t -> Prop) (cid : jsstring)
    (upd : Conversation.t -> Conversation.t) (l : list Conversation.t) :
  (forall c, P c -> P (upd c)) -> Forall P l ->
  Forall P (update_conversation cid upd l).
Proof.
  intros Hupd Hl. unfold update_conversation. apply Forall_map.
  eapply Forall_impl; [|exact Hl].
  intros c Hc. cbn beta.
  destruct (negb (str_eqb (Conversation.id c) cid)); auto.
Qed.

Lemma sendMessage_begin_texts (snap st : AppState) (d : SendDraws)
    (text : value) :
  Forall texts_ok (conversations st) ->
  Forall texts_ok (conversations (fst (sendMessage_begin snap st d text))).
Proof.
  intros Hst. unfold sendMessage_begin.
  destruct text; try exact Hst.
  destruct (truthy (VStr (trim s))) eqn:Ht; cbn [negb orb]; [|exact Hst].
  destruct (isLoading snap); [exact Hst|].
  assert (Hadd : forall c, texts_ok c -> texts_ok (add_user_message d (trim s) c)).
  { intros c Hc. unfold texts_ok, add_user_message. cbn [Conversation.messages].
    apply Forall_app. split; [exact Hc|]. constructor; [|constructor].
    intros _. exists (trim s). split; [reflexivity|]. split.
    - intros E. rewrite E in Ht. discriminate Ht.
    - apply trim_idempotent. }
  destruct (no_conversation (activeConversationId snap)); cbn [fst];
    state_simpl.
  - apply update_conversation_Forall; [exact Hadd|].
    constructor; [constructor|exact Hst].
  - apply update_conversation_Forall; [exact Hadd|exact Hst].
Qed.

Lemma reply_message_text (o : GatewayOutcome) (d : SettleDraws) :
  user_text_ok (reply_message JSON_parse o d).
Proof.
  intros H. rewrite reply_message_role in H. discriminate H.
Qed.

Lemma step_texts (s s' : System) :
  step JSON_parse s s' ->
  Forall texts_ok (conversations (app s)) ->
  Forall texts_ok (conversations (app s')).
Proof.
  intros Hstep Hs. destruct Hstep; cbn [app].
  - exact Hs.
  - unfold createNewConversation. state_simpl.
    constructor; [constructor|exact Hs].
  - exact Hs.
  - now apply sendMessage_begin_texts.
  - unfold retryLastMessage.
    destruct (activeConversation (app s)) as [ac|]; [|exact Hs].
    destruct (Nat.ltb _ 2); [exact Hs|].
    destruct (find is_user _) as [u|]; [|exact Hs].
    apply sendMessage_begin_texts. state_simpl.
    apply Forall_map. eapply Forall_impl; [|exact Hs].
    intros c Hc. cbn beta.
    destruct (negb (id_is c (activeConversationId (app s)))); [exact Hc|].
    unfold texts_ok, drop_errors. cbn [Conversation.messages].
    apply Forall_forall. intros m Hm. apply filter_In in Hm.
    unfold texts_ok in Hc. rewrite Forall_forall in Hc. now apply Hc.
  - unfold sendMessage_settle. state_simpl.
    apply update_conversation_Forall; [|exact Hs].
    intros c Hc. unfold texts_ok, append_message.
    cbn [Conversation.messages]. apply Forall_app. split; [exact Hc|].
    constructor; [apply reply_message_text|constructor].
Qed.

(** X13.  In every state the message flow reaches from the initial state,
    each message of the user holds a string that is not empty and that
    [trim] leaves as it is: what was typed is stored trimmed, and a retry
    sends the same text again. *)
Theorem user_messages_hold_trimmed_text (s : System) (c : Conversation.t)
    (m : Message.t) :
  reachable JSON_parse s ->
  In c (conversations (app s)) ->
  In m (Conversation.messages c) ->
  Message.role m = User ->
  exists t, Message.content m = VStr t /\ t <> [] /\ trim t = t.
Proof.
  intros Hr.
  assert (H : Forall texts_ok (conversations (app s))).
  { induction Hr as [|s0 s1 _ IH Hstep]; [constructor|].
    exact (step_texts s0 s1 Hstep IH). }
  intros Hc Hm.
  rewrite Forall_forall in H. specialize (H c Hc).
  unfold texts_ok in H. rewrite Forall_forall in H. exact (H m Hm).
Qed.

(** ** What a retry leaves alone *)

(** X14.  A retry on a page whose active id is a non-empty string creates no
    conversation, keeps the selection and leaves every conversation with
    another id as it was; it changes nothing at all when no conversation has
    the active id, when the active conversation has fewer than two messages,
    or when none of its messages is the user's. *)
Theorem retry_touches_active_conversation_only (st : AppState) (d : SendDraws)
    (aid : jsstring) :
  activeConversationId st = Some aid ->
  aid <> [] ->
  activeConversationId (fst (retryLastMessage st d)) = Some aid
  /\ List.length (conversations (fst (retryLastMessage st d)))
     = List.length (conversations st)
  /\ (forall i c,
        nth_error (conversations st) i = Some c ->
        Conversation.id c <> aid ->
        nth_error (conversations (fst (retryLastMessage st d))) i = Some c)
  /\ (match activeConversation st with
      | None => True
      | Some ac =>
          List.length (Conversation.messages ac) < 2
          \/ find is_user (rev (Conversation.messages ac)) = None
      end ->
      retryLastMessage st d = (st, None)).
Proof.
  intros Hact Hne.
  assert (Hno : no_conversation (Some aid) = false).
  { destruct aid; [now elim Hne|reflexivity]. }
  assert (Hsame : activeConversationId (fst (st, @None Pending)) = Some aid
                  /\ List.length (conversations (fst (st, @None Pending)))
                     = List.length (conversations st)
                  /\ (forall i c,
                        nth_error (conversations st) i = Some c ->
                        Conversation.id c <> aid ->
                        nth_error (conversations (fst (st, @None Pending))) i
                        = Some c)).
  { cbn [fst]. repeat split; auto. }
  unfold retryLastMessage.
  destruct (activeConversation st) as [ac|].
  2:{ destruct Hsame as (H1 & H2 & H3). repeat split; auto. }
  destruct (Nat.ltb_spec (List.length (Conversation.messages ac)) 2) as [Hlt|Hge].
  { destruct Hsame as (H1 & H2 & H3). repeat split; auto. }
  destruct (find is_user (rev (Conversation.messages ac))) as [u|].
  2:{ destruct Hsame as (H1 & H2 & H3). repeat split; auto. }
  split; [|split; [|split]].
  - unfold sendMessage_begin. destruct (Message.content u); try exact Hact.
    destruct (negb (truthy (VStr (trim s))) || isLoading st); [exact Hact|].
    rewrite Hact, Hno. exact Hact.
  - unfold sendMessage_begin.
    destruct (Message.content u); state_simpl; try apply length_map.
    destruct (negb (truthy (VStr (trim s))) || isLoading st); state_simpl;
      [apply length_map|].
    rewrite Hact, Hno. state_simpl.
    rewrite update_conversation_length. apply length_map.
  - intros i c Hc Hid.
    assert (Hdrop : nth_error
                      (map (fun c0 => if negb (id_is c0 (activeConversationId st))
                                      then c0 else drop_errors c0)
                           (conversations st)) i = Some c).
    { rewrite nth_error_map, Hc, Hact. cbn [option_map id_is].
      now rewrite (str_eqb_neq _ _ Hid). }
    unfold sendMessage_begin.
    destruct (Message.content u); state_simpl; try exact Hdrop.
    destruct (negb (truthy (VStr (trim s))) || isLoading st); state_simpl;
      [exact Hdrop|].
    rewrite Hact, Hno. state_simpl. rewrite Hact in Hdrop.
    rewrite (update_conversation_nth aid _ _ i c Hdrop).
    now rewrite (str_eqb_neq _ _ Hid).
  - intros [Hlt | Hnone]; [lia|discriminate Hnone].
Qed.

End FlowMore.

(** * The renderers *)

(** ** [formatInline] *)

Lemma startsWith_app (p s : jsstring) :
  startsWith p s = true <-> s = p ++ skipn (List.length p) s.
Proof.
  revert s. induction p as [|x p IH]; intros s; cbn [startsWith].
  - split; reflexivity.
  - destruct s as [|c s]; [split; discriminate|].
    cbn [List.length skipn Datatypes.app]. rewrite andb_true_iff, N.eqb_eq, IH.
    split.
    + intros [-> H]. rewrite <- H. reflexivity.
    + intros [= -> H]. split; [reflexivity|exact H].
Qed.

Lemma lazy_close_sound (s captured rest : jsstring) :
  lazy_close s = Some (captured, rest) -> s = captured ++ MARK ++ rest.
Proof.
  revert captured. induction s as [|c s IH]; intros captured; [discriminate|].
  cbn [lazy_close].
  destruct (startsWith MARK (c :: s)) eqn:Em.
  - intros [= <- <-]. apply startsWith_app in Em. exact Em.
  - destruct (is_line_terminator c); [discriminate|].
    destruct (lazy_close s) as [[cap r]|]; [|discriminate].
    intros [= <- <-]. cbn [Datatypes.app]. f_equal. now apply IH.
Qed.

Lemma match_bold_sound (s captured rest : jsstring) :
  match_bold s = Some (captured, rest) ->
  s = MARK ++ captured ++ MARK ++ rest.
Proof.
  unfold match_bold. destruct (startsWith MARK s) eqn:Em; [|discriminate].
  intros H. apply lazy_close_sound in H. apply startsWith_app in Em.
  change (List.length MARK) with 2 in Em. rewrite H in Em. exact Em.
Qed.

Lemma match_bold_shorter (s captured rest : jsstring) :
  match_bold s = Some (captured, rest) -> List.length rest < List.length s.
Proof.
  intros H. apply match_bold_sound in H. rewrite H, !length_app.
  cbn [MARK js List.length list_ascii_of_string map]. lia.
Qed.

Lemma split_bold_source (fuel : nat) (pending s : jsstring) :
  List.length s < fuel ->
  parts_source (split_bold fuel pending s) = pending ++ s.
Proof.
  revert pending s. induction fuel as [|fuel IH]; intros pending s Hlen; [lia|].
  cbn [split_bold]. destruct s as [|c s]; [now rewrite app_nil_r|].
  destruct (match_bold (c :: s)) as [[captured rest]|] eqn:Em.
  - cbn [parts_source].
    pose proof (match_bold_shorter _ _ _ Em) as Hshort.
    rewrite (IH [] rest) by lia.
    apply match_bold_sound in Em. rewrite Em. reflexivity.
  - rewrite IH by (cbn [List.length] in Hlen; lia).
    now rewrite <- app_assoc.
Qed.

Lemma tag_parts_step (i : nat) (parts : list jsstring) :
  tag_parts (S (S i)) parts = tag_parts i parts.
Proof.
  revert i. induction parts as [|p parts IH]; intros i; [reflexivity|].
  cbn [tag_parts]. rewrite IH. f_equal.
  replace (S (S i)) with (i + 1 * 2) by lia.
  now rewrite Nat.Div0.mod_add.
Qed.

Lemma tag_parts_pair (t captured : jsstring) (more : list jsstring) :
  tag_parts 0 (t :: captured :: more)
  = Plain t :: Strong captured :: tag_parts 0 more.
Proof.
  change (tag_parts 0 (t :: captured :: more))
    with (Plain t :: Strong captured :: tag_parts 2 more).
  now rewrite tag_parts_step.
Qed.

Lemma tag_parts_source (parts : list jsstring) :
  inline_source (tag_parts 0 parts) = parts_source parts.
Proof.
  assert (H : forall n parts, List.length parts <= n ->
                inline_source (tag_parts 0 parts) = parts_source parts).
  { induction n as [|n IH]; intros parts0 Hn.
    - destruct parts0; [reflexivity|cbn [List.length] in Hn; lia].
    - destruct parts0 as [|t [|captured more]].
      + reflexivity.
      + cbn. apply app_nil_r.
      + rewrite tag_parts_pair. cbn [inline_source parts_source].
        rewrite IH by (cbn [List.length] in Hn; lia). reflexivity. }
  exact (H (List.length parts) parts (le_n _)).
Qed.

Lemma formatInline_source (text : jsstring) :
  inline_source (formatInline text) = text.
Proof.
  unfold formatInline.
  destruct (Nat.eqb (List.length (split_bold (S (List.length text)) [] text)) 1).
  - cbn [inline_source]. apply app_nil_r.
  - rewrite tag_parts_source. apply split_bold_source. lia.
Qed.

(** X15.  Putting the asterisks back around the [<strong>] spans of
    [formatInline] and joining the spans gives the text it was called on:
    the formatting moves no text and loses none. *)
Theorem formatInline_keeps_text (text : jsstring) :
  inline_source (formatInline text) = text.
Proof. apply formatInline_source. Qed.

Lemma lazy_close_clean (s captured rest : jsstring) :
  lazy_close s = Some (captured, rest) ->
  has_marker captured = false /\ one_line captured = true.
Proof.
  revert captured. induction s as [|c s IH]; intros captured; [discriminate|].
  cbn [lazy_close].
  destruct (startsWith MARK (c :: s)) eqn:Em.
  - intros [= <- _]. split; reflexivity.
  - destruct (is_line_terminator c) eqn:El; [discriminate|].
    destruct (lazy_close s) as [[cap r]|] eqn:Ec; [|discriminate].
    intros [= <- <-]. destruct (IH cap eq_refl) as [Hm Hl].
    split.
    + cbn [has_marker]. rewrite Hm, orb_false_r.
      apply lazy_close_sound in Ec. rewrite Ec in Em.
      revert Em. unfold MARK. cbn [js list_ascii_of_string map startsWith].
      destruct cap as [|x cap]; [intros _; now rewrite andb_false_r|].
      cbn [Datatypes.app]. trivial.
    + unfold one_line. cbn [forallb]. rewrite El. exact Hl.
Qed.

Lemma split_bold_clean (fuel : nat) (pending s : jsstring) :
  Forall (fun p => has_marker p = false /\ one_line p = true)
         (odd_parts (split_bold fuel pending s)).
Proof.
  revert pending s. induction fuel as [|fuel IH]; intros pending s;
    [constructor|].
  cbn [split_bold]. destruct s as [|c s]; [constructor|].
  destruct (match_bold (c :: s)) as [[captured rest]|] eqn:Em; [|apply IH].
  cbn [odd_parts]. constructor; [|apply IH].
  unfold match_bold in Em. destruct (startsWith MARK (c :: s)); [|discriminate].
  exact (lazy_close_clean _ _ _ Em).
Qed.

Lemma strong_is_odd_part (s : jsstring) (parts : list jsstring) :
  In (Strong s) (tag_parts 0 parts) -> In s (odd_parts parts).
Proof.
  assert (H : forall n parts, List.length parts <= n ->
                In (Strong s) (tag_parts 0 parts) -> In s (odd_parts parts)).
  { induction n as [|n IH]; intros parts0 Hn Hin.
    - destruct parts0; [destruct Hin|cbn [List.length] in Hn; lia].
    - destruct parts0 as [|t [|captured more]].
      + destruct Hin.
      + cbn in Hin. destruct Hin as [Hin|[]]. discriminate Hin.
      + rewrite tag_parts_pair in Hin. cbn [odd_parts].
        destruct Hin as [Hin|[Hin|Hin]].
        * discriminate Hin.
        * injection Hin as ->. now left.
        * right. apply IH; [cbn [List.length] in Hn; lia|exact Hin]. }
  exact (H (List.length parts) parts (le_n _)).
Qed.

Lemma split_bold_no_marker (fuel : nat) (pending s : jsstring) :
  has_marker s = false -> split_bold fuel pending s = [pending ++ s].
Proof.
  revert pending s. induction fuel as [|fuel IH]; intros pending s Hs;
    [reflexivity|].
  cbn [split_bold]. destruct s as [|c s]; [now rewrite app_nil_r|].
  cbn [has_marker] in Hs. apply orb_false_iff in Hs. destruct Hs as [Hm Hs].
  unfold match_bold. rewrite Hm. rewrite (IH _ _ Hs).
  now rewrite <- app_assoc.
Qed.

(** X16.  A [<strong>] span of [formatInline] holds neither two asterisks in
    a row nor a line terminator, and a text without two asterisks in a row
    is returned as one plain span. *)
Theorem formatInline_spans (text : jsstring) :
  (forall s, In (Strong s) (formatInline text) ->
             has_marker s = false /\ one_line s = true)
  /\ (has_marker text = false -> formatInline text = [Plain text]).
Proof.
  split.
  - intros s. unfold formatInline.
    destruct (Nat.eqb _ 1).
    + intros [H|[]]. discriminate H.
    + intros H. apply strong_is_odd_part in H.
      pose proof (split_bold_clean (S (List.length text)) [] text) as Hc.
      rewrite Forall_forall in Hc. exact (Hc s H).
  - intros H. unfold formatInline.
    rewrite (split_bold_no_marker _ [] text H). reflexivity.
Qed.

Lemma split_bold_fuel (f1 f2 : nat) (pending s : jsstring) :
  List.length s < f1 -> List.length s < f2 ->
  split_bold f1 pending s = split_bold f2 pending s.
Proof.
  revert f2 pending s. induction f1 as [|f1 IH]; intros f2 pending s H1 H2;
    [lia|].
  destruct f2 as [|f2]; [lia|].
  cbn [split_bold]. destruct s as [|c s]; [reflexivity|].
  cbn [List.length] in H1, H2.
  destruct (match_bold (c :: s)) as [[captured rest]|] eqn:Em.
  - pose proof (match_bold_shorter _ _ _ Em) as Hshort.
    cbn [List.length] in Hshort.
    f_equal. f_equal. apply IH; lia.
  - apply IH; lia.
Qed.

(** ** [renderMarkdown] *)

Lemma split_lines_length (line s : jsstring) :
  List.length (split_lines line s) = S (newlines s).
Proof.
  revert line. induction s as [|c s IH]; intros line; [reflexivity|].
  cbn [split_lines]. unfold newlines. cbn [filter].
  destruct (N.eqb c 10); cbn [List.length]; now rewrite IH.
Qed.

Lemma split_lines_join (line s : jsstring) :
  join_lines (split_lines line s) = line ++ s.
Proof.
  revert line. induction s as [|c s IH]; intros line; cbn [split_lines].
  - cbn. now rewrite app_nil_r.
  - destruct (N.eqb c 10) eqn:E.
    + apply N.eqb_eq in E. subst c.
      change (join_lines (line :: split_lines [] s))
        with (match split_lines [] s with
              | [] => line
              | _ :: _ => line ++ [10%N] ++ join_lines (split_lines [] s)
              end).
      rewrite IH.
      destruct (split_lines [] s) eqn:Es; [|reflexivity].
      apply (f_equal (@List.length jsstring)) in Es.
      rewrite split_lines_length in Es. discriminate Es.
    + rewrite IH. now rewrite <- app_assoc.
Qed.

Lemma split_lines_no_newline (line s : jsstring) :
  newlines line = 0 ->
  Forall (fun l => newlines l = 0) (split_lines line s).
Proof.
  revert line. induction s as [|c s IH]; intros line Hl; cbn [split_lines].
  - now constructor.
  - destruct (N.eqb c 10) eqn:E.
    + constructor; [exact Hl|]. now apply IH.
    + apply IH. unfold newlines in *. rewrite filter_app, length_app, Hl.
      cbn [filter]. rewrite E. reflexivity.
Qed.

(** X17.  [renderMarkdown] returns [null] on the empty text only; on any
    other text it renders the lines between the newlines, one block a line
    and in their order: no line is dropped, merged or split. *)
Theorem renderMarkdown_one_block_per_line (text : jsstring) :
  match renderMarkdown text with
  | None => text = []
  | Some blocks =>
      text <> []
      /\ List.length blocks = S (newlines text)
      /\ exists lines,
           blocks = map render_line lines
           /\ join_lines lines = text
           /\ Forall (fun l => newlines l = 0) lines
  end.
Proof.
  unfold renderMarkdown. destruct text as [|c text]; [reflexivity|].
  cbn [truthy List.length Nat.eqb negb].
  split; [discriminate|]. split.
  - now rewrite length_map, split_lines_length.
  - exists (split_lines [] (c :: text)). split; [reflexivity|]. split.
    + apply split_lines_join.
    + now apply split_lines_no_newline.
Qed.

Lemma skip_digits_split (s : jsstring) :
  exists digits, s = digits ++ skip_digits s /\ forallb is_digit digits = true.
Proof.
  induction s as [|c s (digits & Hd & Hall)]; [now exists []|].
  cbn [skip_digits]. destruct (is_digit c) eqn:E.
  - exists (c :: digits). cbn [forallb Datatypes.app]. rewrite E, Hall.
    split; [now f_equal|reflexivity].
  - now exists [].
Qed.

Lemma numbered_rest_sound (line rest : jsstring) :
  numbered_rest line = Some rest ->
  exists digits w,
    digits <> [] /\ forallb is_digit digits = true
    /\ is_white_space w = true
    /\ line = digits ++ [46%N; w] ++ rest.
Proof.
  unfold numbered_rest. destruct line as [|c line]; [discriminate|].
  destruct (is_digit c) eqn:Ec; [|discriminate].
  destruct (skip_digits_split (c :: line)) as (digits & Hd & Hall).
  destruct (skip_digits (c :: line)) as [|x [|w r]] eqn:Es; try discriminate.
  destruct (N.eqb x 46) eqn:Ex; [|discriminate].
  destruct (is_white_space w) eqn:Ew; [|discriminate].
  intros [= <-]. apply N.eqb_eq in Ex. subst x.
  exists digits, w. repeat split; try assumption.
  intros ->. cbn [Datatypes.app] in Hd.
  cbn [skip_digits] in Es. rewrite Ec in Es.
  injection Hd as -> _. discriminate Ec.
Qed.

(** X18.  The block made of a line holds the text of the line behind its
    marker and nothing else: a heading is the line without [#]s and the
    space, a list item is the line without its bullet or its number, a
    paragraph is the whole line, and a spacer stands for a line of white
    space only. *)
Theorem render_line_keeps_text (line : jsstring) :
  match render_line line with
  | H4 s => line = js "### " ++ s
  | H3 s => line = js "## " ++ s
  | H2 s => line = js "# " ++ s
  | Bullet nodes =>
      line = js "- " ++ inline_source nodes
      \/ line = js "* " ++ inline_source nodes
  | Numbered nodes =>
      exists digits w,
        digits <> [] /\ forallb is_digit digits = true
        /\ is_white_space w = true
        /\ line = digits ++ [46%N; w] ++ inline_source nodes
  | Spacer => forallb is_white_space line = true
  | Paragraph nodes =>
      inline_source nodes = line /\ forallb is_white_space line = false
  end.
Proof.
  unfold render_line.
  destruct (startsWith (js "### ") line) eqn:E4;
    [apply startsWith_app in E4; exact E4|].
  destruct (startsWith (js "## ") line) eqn:E3;
    [apply startsWith_app in E3; exact E3|].
  destruct (startsWith (js "# ") line) eqn:E2;
    [apply startsWith_app in E2; exact E2|].
  destruct (startsWith (js "- ") line) eqn:Eb.
  { cbn [orb]. rewrite formatInline_source. left.
    apply startsWith_app in Eb. exact Eb. }
  destruct (startsWith (js "* ") line) eqn:Es.
  { cbn [orb]. rewrite formatInline_source. right.
    apply startsWith_app in Es. exact Es. }
  cbn [orb].
  destruct (numbered_rest line) as [rest|] eqn:En.
  { rewrite formatInline_source. now apply numbered_rest_sound. }
  destruct (truthy (VStr (trim line))) eqn:Et; cbn [negb].
  - split; [apply formatInline_source|].
    destruct (forallb is_white_space line) eqn:Ew; [|reflexivity].
    apply trim_blank in Ew. rewrite Ew in Et. discriminate Et.
  - apply trim_blank. destruct (trim line); [reflexivity|discriminate Et].
Qed.

(** ** [ComparisonTable], [MessageBubble] and [ProductCard] *)

Lemma mapi_from_length {A B : Type} (k : nat) (f : nat -> A -> B)
    (l : list A) :
  List.length (mapi_from k f l) = List.length l.
Proof.
  revert k. induction l as [|x l IH]; intros k; [reflexivity|].
  cbn [mapi_from List.length]. now rewrite IH.
Qed.

Lemma mapi_from_nth {A B : Type} (k : nat) (f : nat -> A -> B) (l : list A)
    (i : nat) :
  nth_error (mapi_from k f l) i = option_map (f (k + i)) (nth_error l i).
Proof.
  revert k i. induction l as [|x l IH]; intros k i.
  - destruct i; reflexivity.
  - destruct i as [|i]; cbn [mapi_from nth_error option_map].
    + now rewrite Nat.add_0_r.
    + rewrite IH. now rewrite Nat.add_succ_r.
Qed.

Lemma mapi_from_labels {A B : Type} (k : nat) (g : nat -> list B)
    (l : list A) :
  map fst (mapi_from k (fun i a => (a, g i)) l) = l.
Proof.
  revert k. induction l as [|x l IH]; intros k; [reflexivity|].
  cbn [mapi_from map fst]. now rewrite IH.
Qed.

Lemma nullish_or_not_nullish (a b : value) :
  nullish b = false -> nullish (nullish_or a b) = false.
Proof.
  intros H. unfold nullish_or. destruct (nullish a) eqn:E; assumption.
Qed.

Lemma at_index_nth_error (items : list value) (i : nat) :
  at_index items i
  = match nth_error items i with
    | Some v => v
    | None => VUndefined
    end.
Proof.
  unfold at_index. revert i. induction items as [|x items IH]; intros [|i];
    try reflexivity. cbn [nth nth_error]. apply IH.
Qed.

Lemma cell_by_cases (i : nat) (p : value) :
  cell i p
  = match nth_error (array_or_empty (opt_prop p Field.values)) i with
    | Some v => if nullish v then DASH else v
    | None => DASH
    end.
Proof.
  unfold cell, nullish_or. rewrite at_index_nth_error.
  destruct (nth_error _ i); reflexivity.
Qed.

(** X19.  [ComparisonTable] shows nothing when the comparison has no
    attribute or no product, a field that is no array counting as empty.
    Otherwise the table has one row per attribute, labelled by it, and in
    every row exactly one cell per product, also for a product without
    values or with too few: the cell is the product's value at the row when
    there is one that is neither [null] nor [undefined], and a dash
    otherwise.  No heading is [null] or [undefined]. *)
Theorem comparison_table_is_rectangular (cmp : value) :
  match ComparisonTable cmp with
  | None =>
      array_or_empty (opt_prop cmp Key.attributes) = []
      \/ array_or_empty (opt_prop cmp Key.products) = []
  | Some t =>
      array_or_empty (opt_prop cmp Key.attributes) <> []
      /\ array_or_empty (opt_prop cmp Key.products) <> []
      /\ map fst (rows t) = array_or_empty (opt_prop cmp Key.attributes)
      /\ List.length (headings t)
         = List.length (array_or_empty (opt_prop cmp Key.products))
      /\ (forall h, In h (headings t) -> nullish h = false)
      /\ forall i attr cells,
           nth_error (rows t) i = Some (attr, cells) ->
           List.length cells
           = List.length (array_or_empty (opt_prop cmp Key.products))
           /\ forall j p,
                nth_error (array_or_empty (opt_prop cmp Key.products)) j
                = Some p ->
                nth_error cells j
                = Some
                    match
                      nth_error (array_or_empty (opt_prop p Field.values)) i
                    with
                    | Some v => if nullish v then DASH else v
                    | None => DASH
                    end
  end.
Proof.
  unfold ComparisonTable. cbv zeta.
  destruct (array_or_empty (opt_prop cmp Key.attributes)) as [|a attrs];
    [left; reflexivity|].
  destruct (array_or_empty (opt_prop cmp Key.products)) as [|q prods];
    [right; reflexivity|].
  cbn [List.length Nat.eqb orb rows headings].
  split; [discriminate|]. split; [discriminate|].
  split; [apply mapi_from_labels|]. split; [rewrite mapi_from_length; reflexivity|]. split.
  - intros h Hh. apply In_nth_error in Hh. destruct Hh as (j & Hj).
    rewrite mapi_from_nth in Hj.
    destruct (nth_error (q :: prods) j); [|discriminate Hj].
    injection Hj as <-. now apply nullish_or_not_nullish.
  - intros i attr cells Hrow. rewrite mapi_from_nth in Hrow.
    destruct (nth_error (a :: attrs) i); [|discriminate Hrow].
    cbn [option_map Nat.add] in Hrow. injection Hrow as _ <-.
    change (cell i q :: map (cell i) prods) with (map (cell i) (q :: prods)).
    split; [rewrite length_map; reflexivity|].
    intros j p Hp. rewrite nth_error_map, Hp. cbn [option_map].
    now rewrite cell_by_cases.
Qed.

Section BubbleFacts.

Variable JSON_parse : value -> option value.







(** X21.  The heading of the card of a product [parseAgentResponse]
    returned is the product's [name], a string: the "Unnamed Product"
    placeholder of line 330 is never what such a card falls back to. *)
Theorem returned_product_heading_is_its_name (result p : value) :
  In p (products (parseAgentResponse JSON_parse result)) ->
  exists s, lookup p Key.name = VStr s /\ card_heading p = VStr s.
Proof.
  intros Hp.
  pose proof (products_all_kept JSON_parse result) as H.
  rewrite Forall_forall in H. specialize (H p Hp).
  apply keep_spec in H. destruct H as (fields & s & -> & Hname).
  exists s. unfold card_heading, nullish_or, opt_prop.
  cbn [nullish lookup]. rewrite Hname. split; reflexivity.
Qed.

End BubbleFacts.

(** ** [relativeTime] *)

(** X22.  The age shown for a timestamp depends on how many milliseconds
    ago it was: under a minute, also for a time in the future, "Just now";
    under an hour, the whole minutes, from 1 to 59; under a day, the whole
    hours, from 1 to 23; under seven days, the whole days, from 1 to 6;
    from seven days on, and for a string that is no date, the date as the
    locale prints it. *)
Theorem relativeTime_by_age (now t : Z) (localeDate : jsstring) :
  ((now - t < 60000)%Z ->
   relativeTime now (Some t) localeDate = js "Just now")
  /\ ((60000 <= now - t < 3600000)%Z ->
      relativeTime now (Some t) localeDate
      = decimal (Z.to_N ((now - t) / 60000)) ++ js "m ago"
      /\ (1 <= (now - t) / 60000 <= 59)%Z)
  /\ ((3600000 <= now - t < 86400000)%Z ->
      relativeTime now (Some t) localeDate
      = decimal (Z.to_N ((now - t) / 3600000)) ++ js "h ago"
      /\ (1 <= (now - t) / 3600000 <= 23)%Z)
  /\ ((86400000 <= now - t < 604800000)%Z ->
      relativeTime now (Some t) localeDate
      = decimal (Z.to_N ((now - t) / 86400000)) ++ js "d ago"
      /\ (1 <= (now - t) / 86400000 <= 6)%Z)
  /\ ((604800000 <= now - t)%Z ->
      relativeTime now (Some t) localeDate = localeDate)
  /\ relativeTime now None localeDate = localeDate.
Proof.
  unfold relativeTime. set (diff := (now - t)%Z).
  assert (Hh : (diff / 60000 / 60 = diff / 3600000)%Z).
  { rewrite Z.div_div by lia. reflexivity. }
  assert (Hd : (diff / 60000 / 60 / 24 = diff / 86400000)%Z).
  { rewrite Hh, Z.div_div by lia. reflexivity. }
  rewrite Hd, Hh.
  assert (Hlt : forall k b : Z, (0 < k)%Z ->
                  ((diff / k <? b)%Z = true <-> (diff < b * k)%Z)).
  { intros k b Hk. rewrite Z.ltb_lt. split; intros H.
    - apply Z.nle_gt. intros Hge. apply Z.nle_gt in H. apply H.
      apply Z.div_le_lower_bound; lia.
    - apply Z.div_lt_upper_bound; lia. }
  assert (Hge : forall k b : Z, (0 < k)%Z ->
                  ((diff / k <? b)%Z = false <-> (b * k <= diff)%Z)).
  { intros k b Hk. rewrite <- Bool.not_true_iff_false, Hlt by exact Hk. lia. }
  repeat split.
  - intros H. assert (E : (diff / 60000 <? 1)%Z = true) by (apply Hlt; lia).
    now rewrite E.
  - assert (E1 : (diff / 60000 <? 1)%Z = false) by (apply Hge; lia).
    assert (E2 : (diff / 60000 <? 60)%Z = true) by (apply Hlt; lia).
    now rewrite E1, E2.
  - apply Z.div_le_lower_bound; lia.
  - assert (E2 : (diff / 60000 < 60)%Z) by (apply Z.div_lt_upper_bound; lia).
    lia.
  - assert (E1 : (diff / 60000 <? 1)%Z = false) by (apply Hge; lia).
    assert (E2 : (diff / 60000 <? 60)%Z = false) by (apply Hge; lia).
    assert (E3 : (diff / 3600000 <? 24)%Z = true) by (apply Hlt; lia).
    now rewrite E1, E2, E3.
  - apply Z.div_le_lower_bound; lia.
  - assert (E2 : (diff / 3600000 < 24)%Z) by (apply Z.div_lt_upper_bound; lia).
    lia.
  - assert (E1 : (diff / 60000 <? 1)%Z = false) by (apply Hge; lia).
    assert (E2 : (diff / 60000 <? 60)%Z = false) by (apply Hge; lia).
    assert (E3 : (diff / 3600000 <? 24)%Z = false) by (apply Hge; lia).
    assert (E4 : (diff / 86400000 <? 7)%Z = true) by (apply Hlt; lia).
    now rewrite E1, E2, E3, E4.
  - apply Z.div_le_lower_bound; lia.
  - assert (E2 : (diff / 86400000 < 7)%Z) by (apply Z.div_lt_upper_bound; lia).
    lia.
  - intros H.
    assert (E1 : (diff / 60000 <? 1)%Z = false) by (apply Hge; lia).
    assert (E2 : (diff / 60000 <? 60)%Z = false) by (apply Hge; lia).
    assert (E3 : (diff / 3600000 <? 24)%Z = false) by (apply Hge; lia).
    assert (E4 : (diff / 86400000 <? 7)%Z = false) by (apply Hge; lia).
    now rewrite E1, E2, E3, E4.
Qed.

(** * The further properties on concrete inputs *)

Module MoreWitness.
Import Example Sample.

Lemma failed_reply_gives_error_text_holds :
  parseAgentResponse no_json failed_reply
  = mkParsed (VStr (js "timeout")) [] None.
Proof.
  exact (failed_reply_gives_error_text no_json failed_reply
           (or_intror (or_introl eq_refl))).
Defined.

Lemma plain_text_result_verbatim_holds :
  parseAgentResponse no_json plain_reply
  = mkParsed (VStr (js "Just text")) [] None.
Proof.
  apply (plain_text_result_verbatim no_json plain_reply (js "Just text")).
  - repeat split.
  - reflexivity.
  - discriminate.
  - reflexivity.
Defined.

Lemma top_level_message_is_fallback_holds :
  parseAgentResponse no_json message_reply
  = mkParsed (VStr (js "From message")) [] None.
Proof.
  exact (top_level_message_is_fallback no_json message_reply status_only
           eq_refl eq_refl eq_refl).
Defined.

Lemma raw_response_supplies_text_holds :
  parseAgentResponse no_json raw_plain_reply
  = mkParsed (VStr (js "plain raw")) [] None.
Proof.
  apply (proj1 (raw_response_supplies_text no_json raw_plain_reply status_only
                  (js "plain raw") eq_refl eq_refl eq_refl eq_refl
                  ltac:(discriminate))).
  reflexivity.
Defined.

Lemma raw_response_nested_object_holds :
  parseAgentResponse raw_json reply_with_raw
  = mkParsed (VStr MSG_UNFORMATTED) []
             (Some (VObj [(Key.attributes, VArr [])])).
Proof.
  apply (raw_response_nested_object raw_json reply_with_raw list_comparison
           raw_text raw_parsed nested).
  all: first [reflexivity | discriminate].
Defined.

Lemma first_submission_creates_conversation_holds :
  exists st,
    sendMessage initial_state first_send (VStr (js "  Find me a CRM "))
    = (st, Some first_pending)
    /\ map Conversation.title (conversations st) = [js "Find me a CRM"].
Proof.
  destruct (first_submission_creates_conversation initial_state first_send
              (js "  Find me a CRM "))
    as [H _].
  - discriminate.
  - reflexivity.
  - reflexivity.
  - intros c [].
  - eexists. split; [exact H|reflexivity].
Defined.

Lemma first_turn_appends_reply_holds :
  exists st1 p,
    sendMessage initial_state first_send (VStr (js "Find me a CRM"))
    = (st1, Some p)
    /\ map (fun c => List.length (Conversation.messages c))
           (conversations
              (sendMessage_settle no_json p (Resolved (agent_reply both_keys))
                 first_settle st1)) = [2].
Proof.
  destruct (first_turn_appends_reply no_json initial_state first_send
              (js "Find me a CRM") (agent_reply both_keys) first_settle)
    as (st1 & p & Hsend & Hsettle).
  - discriminate.
  - reflexivity.
  - reflexivity.
  - intros c [].
  - discriminate.
  - exists st1, p. split; [exact Hsend|]. rewrite Hsettle. reflexivity.
Defined.

Lemma submission_targets_active_conversation_holds :
  exists st1 p,
    sendMessage failed second_send (VStr (js "And a cheaper one?"))
    = (st1, Some p)
    /\ convId p = js "c1"
    /\ List.length (conversations st1) = 1.
Proof.
  destruct (submission_targets_active_conversation failed second_send
              (js "And a cheaper one?") (js "c1"))
    as (st1 & p & Hsend & Hp & _ & Hlen & _).
  - discriminate.
  - reflexivity.
  - reflexivity.
  - discriminate.
  - exists st1, p. split; [exact Hsend|]. split; [exact Hp|exact Hlen].
Defined.

Lemma sample_page_reachable :
  page_reachable no_json (mkSystem sample_page []).
Proof.
  apply page_next with (s := mkSystem initial_state []).
  - apply page_init.
  - exact (page_sample no_json (mkSystem initial_state []) true stamp stamp
             stamp stamp NoItem).
Qed.

Lemma active_id_always_valid_holds :
  exists c,
    In c (conversations sample_page) /\ Conversation.id c = js "sample-1".
Proof.
  exact (active_id_always_valid no_json (mkSystem sample_page [])
           sample_page_reachable).
Defined.

Lemma sending_page_reachable :
  page_reachable no_json (mkSystem sending [first_pending]).
Proof.
  apply page_next with (s := mkSystem initial_state []).
  - apply page_init.
  - apply page_flow.
    exact (step_send no_json (mkSystem initial_state []) first_send
             (js "Find me a CRM")).
Qed.

Lemma one_call_in_flight_holds :
  flight_ok (mkSystem sending [first_pending]).
Proof.
  exact (one_call_in_flight no_json (mkSystem sending [first_pending])
           sending_page_reachable).
Defined.

Lemma step_keeps_history_holds :
  exists k,
    k <= 1
    /\ List.length (conversations failed)
       = k + List.length (conversations sending).
Proof.
  destruct (step_keeps_history no_json (mkSystem sending [first_pending])
              (mkSystem failed [])
              (step_settle no_json (mkSystem sending [first_pending])
                 first_pending Rejected first_settle [] [] eq_refl))
    as (k & Hk & Hlen & _).
  exists k. split; [exact Hk|exact Hlen].
Defined.

Lemma user_messages_hold_trimmed_text_holds :
  exists t,
    Message.content (userMsg first_send (js "Find me a CRM")) = VStr t
    /\ t <> [] /\ trim t = t.
Proof.
  apply (user_messages_hold_trimmed_text no_json (mkSystem failed [])
           failed_conversation (userMsg first_send (js "Find me a CRM"))).
  - exact Witness.failed_reachable.
  - left. reflexivity.
  - left. reflexivity.
  - reflexivity.
Defined.

Lemma retry_touches_active_conversation_only_holds :
  activeConversationId (fst (retryLastMessage failed second_send))
  = Some (js "c1")
  /\ List.length (conversations (fst (retryLastMessage failed second_send)))
     = List.length (conversations failed).
Proof.
  destruct (retry_touches_active_conversation_only failed second_send
              (js "c1") eq_refl ltac:(discriminate))
    as (Hact & Hlen & _).
  split; [exact Hact|exact Hlen].
Defined.

Lemma formatInline_spans_holds :
  formatInline (js "plain text") = [Plain (js "plain text")].
Proof.
  apply (proj2 (formatInline_spans (js "plain text"))). reflexivity.
Defined.

Lemma comparison_table_is_rectangular_holds :
  ComparisonTable uneven_comparison
  = Some (mkTable [VStr (js "A"); VStr (js "Product 2")]
            [(VStr (js "Price"), [VStr (js "1"); DASH]);
             (VStr (js "Support"), [DASH; DASH])])
  /\ forall j p,
       nth_error (array_or_empty (opt_prop uneven_comparison Key.products)) j
       = Some p ->
       nth_error [DASH; DASH] j
       = Some match nth_error (array_or_empty (opt_prop p Field.values)) 1 with
              | Some v => if nullish v then DASH else v
              | None => DASH
              end.
Proof.
  split; [reflexivity|].
  pose proof (comparison_table_is_rectangular uneven_comparison) as H.
  change (ComparisonTable uneven_comparison)
    with (Some (mkTable [VStr (js "A"); VStr (js "Product 2")]
                  [(VStr (js "Price"), [VStr (js "1"); DASH]);
                   (VStr (js "Support"), [DASH; DASH])])) in H.
  destruct H as (_ & _ & _ & _ & _ & H).
  exact (proj2 (H 1 (VStr (js "Support")) [DASH; DASH] eq_refl)).
Defined.


Lemma returned_product_heading_is_its_name_holds :
  exists s,
    lookup hubspot Key.name = VStr s /\ card_heading hubspot = VStr s.
Proof.
  apply (returned_product_heading_is_its_name no_json
           (agent_reply with_mixed_products) hubspot).
  left. reflexivity.
Defined.

Lemma relativeTime_by_age_holds :
  relativeTime 5400000 (Some 0%Z) (js "1/1/1970") = js "1h ago"
  /\ (1 <= (5400000 - 0) / 3600000 <= 23)%Z.
Proof.
  apply (proj1 (proj2 (proj2 (relativeTime_by_age 5400000 0 (js "1/1/1970"))))).
  lia.
Defined.

End MoreWitness.
